(** * Conciliacion bancaria: the reconciliation front end and its engine

    The development follows the repository: the TypeScript types of the
    front end ([MovimientoBancario], [ConciliacionRequest]), the API client
    ([conciliacionAPI.obtenerMovimientos]), the filter component
    ([FiltrosMovimientos]), the detail dialog ([MovimientoDetalle]) and the
    two forms that launch a reconciliation ([ExecuteConciliationCard] and
    [EjecutarConciliacion]).  The matching engine behind the HTTP interface
    is written in Python and is not part of the sources at hand; it is
    modelled from the specification in the module [Motor]. *)

From Stdlib Require Import ZArith QArith Qabs Lia.
From stdpp Require Import base option list sorting strings gmap.

Local Open Scope string_scope.
Local Open Scope list_scope.

(** ** JavaScript values and the record types of [types/index.ts] *)

(** [estado: 'PENDIENTE' | 'CONCILIADO' | 'MANUAL'] *)
Inductive Estado := PENDIENTE | CONCILIADO | MANUAL.

(** [tipo: 'cargo' | 'abono'] *)
Inductive Tipo := cargo | abono.

#[global] Instance Estado_eq_dec : EqDecision Estado.
Proof. solve_decision. Defined.

#[global] Instance Tipo_eq_dec : EqDecision Tipo.
Proof. solve_decision. Defined.

(** [interface MovimientoBancario].  An optional field ([campo?: T]) and a
    nullable one ([T | null]) are both an [option]; amounts are JavaScript
    numbers carrying currency decimals, taken as rationals. *)
Record MovimientoBancario := {
  id : Z;
  empresa_id : Z;
  archivo_id : Z;
  fecha : string;
  concepto : string;
  monto : Q;
  tipo : Tipo;
  referencia : option string;
  saldo : option Q;
  estado : Estado;
  cfdi_uuid : option string;
  nivel_confianza : option Q;
  metodo_conciliacion : option string;
  observaciones : option string;
  created_at : string
}.

(** [interface ConciliacionRequest] *)
Record ConciliacionRequest := {
  rfc_empresa : string;
  mes : Z;
  anio : Z;
  tolerancia_monto : option Q;
  dias_tolerancia : option Z;
  forzar_reproceso : option bool
}.

(** ** [FiltrosMovimientos]: the filter form *)

Module Filtros.

(** The component state [filtros] is an object from field names to the text
    of each input; the map handed to [onFiltrosChange] is a
    [Record<string, string>]. *)
Abbreviation Registro := (gmap string string).

(** [useState({ concepto: '', estado: '', tipo: '', fecha_inicio: '',
    fecha_fin: '', monto_min: '', monto_max: '' })] *)
Definition filtrosVacios : Registro :=
  list_to_map
    [("concepto", ""); ("estado", ""); ("tipo", ""); ("fecha_inicio", "");
     ("fecha_fin", ""); ("monto_min", ""); ("monto_max", "")].

(** [Object.fromEntries(Object.entries(o).filter(([, value]) => value !== ''))] *)
Definition filtrosLimpios (o : Registro) : Registro :=
  filter (λ kv : string * string, kv.2 ≠ "") o.

(** What a handler does: the next component state ([setFiltros]) and the
    argument of the [onFiltrosChange] call. *)
Record Efecto := {
  nuevo_estado : Registro;
  emitido : Registro
}.

(** [handleInputChange(campo, valor)] *)
Definition handleInputChange (filtros : Registro) (campo valor : string) : Efecto :=
  let nuevosFiltros := <[campo := valor]> filtros in
  {| nuevo_estado := nuevosFiltros;
     emitido := filtrosLimpios nuevosFiltros |}.

(** [limpiarFiltros()] *)
Definition limpiarFiltros (filtros : Registro) : Efecto :=
  {| nuevo_estado := filtrosVacios; emitido := ∅ |}.

(** [hayFiltrosAplicados]: [Object.values(filtros).some(valor => valor !== '')] *)
Definition hayFiltrosAplicados (filtros : Registro) : bool :=
  bool_decide (Exists (λ kv : string * string, kv.2 ≠ "") (map_to_list filtros)).

(** The user's actions on the form: typing or selecting in one of the
    inputs, and the "Limpiar" button. *)
Inductive Accion :=
| Cambiar (campo valor : string)
| Limpiar.

Definition manejar (filtros : Registro) (a : Accion) : Efecto :=
  match a with
  | Cambiar campo valor => handleInputChange filtros campo valor
  | Limpiar => limpiarFiltros filtros
  end.

(** The successive arguments of [onFiltrosChange] along a session that
    starts from the state [filtros]. *)
Fixpoint emisiones (filtros : Registro) (acciones : list Accion) : list Registro :=
  match acciones with
  | [] => []
  | a :: resto =>
      let e := manejar filtros a in
      emitido e :: emisiones (nuevo_estado e) resto
  end.

(** Every value of the map is a non-empty string. *)
Definition sin_vacios (m : Registro) : Prop :=
  ∀ k v, m !! k = Some v → v ≠ "".

End Filtros.

(** ** Values received from the network, and failures *)

Set Warnings "-register-all".

(** A parsed JSON body, or any value a JavaScript expression may hold.
    Numbers are the integers the interface carries (identifiers, counts,
    HTTP statuses); [JUndefined] is the value of a missing property. *)
Inductive JSValue :=
| JUndefined
| JNull
| JBool (b : bool)
| JNum (n : Z)
| JStr (s : string)
| JArr (xs : list JSValue)
| JObj (campos : list (string * JSValue)).

(** What a promise rejects with, or what a statement throws. *)
Inductive JsError :=
| TypeError                       (* property read on [null] or [undefined] *)
| AxiosError (status : option Z).  (* [error.response?.status], if a response came *)

Inductive JsResult (A : Type) :=
| Ok (a : A)
| Throw (e : JsError).
Arguments Ok {A} a.
Arguments Throw {A} e.

(** Sequencing of statements that may throw ([x ← r; k]). *)
#[global] Instance JsResult_bind : MBind JsResult := λ A B k r,
  match r with
  | Ok a => k a
  | Throw e => Throw e
  end.

#[global] Instance JsResult_ret : MRet JsResult := λ A a, Ok a.

(** The last binding of [k] wins, as in [JSON.parse]. *)
Fixpoint buscar (k : string) (campos : list (string * JSValue)) : option JSValue :=
  match campos with
  | [] => None
  | (k', v) :: resto =>
      match buscar k resto with
      | Some w => Some w
      | None => if decide (k' = k) then Some v else None
      end
  end.

(** [v.k] for the data properties [items] and [total]: reading a property of
    [null] or [undefined] throws; a primitive or an array has no such
    property. *)
Definition leer (v : JSValue) (k : string) : JsResult JSValue :=
  match v with
  | JUndefined | JNull => Throw TypeError
  | JObj campos => Ok (default JUndefined (buscar k campos))
  | _ => Ok JUndefined
  end.

(** JavaScript truthiness. *)
Definition truthy (v : JSValue) : bool :=
  match v with
  | JUndefined | JNull => false
  | JBool b => b
  | JNum n => negb (n =? 0)%Z
  | JStr s => negb (String.eqb s "")
  | JArr _ | JObj _ => true
  end.

(** [a || b] *)
Definition o_bien (a b : JSValue) : JSValue := if truthy a then a else b.

Definition es_arreglo (v : JSValue) : bool :=
  match v with JArr _ => true | _ => false end.

Definition es_numero (v : JSValue) : bool :=
  match v with JNum _ => true | _ => false end.

(** ** [conciliacionAPI.obtenerMovimientos] in [lib/api.ts] *)

Module Api.

(** The value the promise resolves with: [{ movimientos, total }].  The
    declared type is [{ movimientos: MovimientoBancario[], total: number }];
    at run time the fields hold whatever the expressions evaluate to. *)
Record Movimientos := {
  movimientos : JSValue;
  total : JSValue
}.

Section Cliente.

(** [api.get(url)], resolved to [response.data] or rejected. *)
Variable api_get : string → JsResult JSValue.
(** [String(v)], [`${n}`] and [URLSearchParams.prototype.toString]. *)
Variable String_ : JSValue → string.
Variable texto_de_numero : Z → string.
Variable params_toString : list (string * string) → string.

(** The [forEach] over [Object.keys(filtros)]: a pair is appended unless
    its value is [undefined] or [null]. *)
Fixpoint agregar_params (filtros : list (string * JSValue)) : list (string * string) :=
  match filtros with
  | [] => []
  | (key, v) :: resto =>
      match v with
      | JUndefined | JNull => agregar_params resto
      | _ => (key, String_ v) :: agregar_params resto
      end
  end.

Definition construir_url (empresaId : Z) (filtros : option (list (string * JSValue))) : string :=
  let url := "/api/v1/conciliacion/movimientos/" +:+ texto_de_numero empresaId in
  match filtros with
  | None => url
  | Some f =>
      let q := params_toString (agregar_params f) in
      if String.eqb q "" then url else url +:+ "?" +:+ q
  end.

(** The [return] statement: [response.data.items || []] and
    [response.data.total || 0], evaluated in that order. *)
Definition mapear (data : JSValue) : JsResult Movimientos :=
  items ← leer data "items";
  tot ← leer data "total";
  Ok {| movimientos := o_bien items (JArr []); total := o_bien tot (JNum 0) |}.

Definition obtenerMovimientos (empresaId : Z)
    (filtros : option (list (string * JSValue))) : JsResult Movimientos :=
  data ← api_get (construir_url empresaId filtros);
  mapear data.

End Cliente.

(** The reading under which the result "always has a defined array and a
    defined number": the call returns, and the two fields are an array and
    a number. *)
Definition resultado_definido (r : JsResult Movimientos) : Prop :=
  ∃ m, r = Ok m ∧ es_arreglo (movimientos m) = true ∧ es_numero (total m) = true.

End Api.

(** ** [MovimientoDetalle]: the detail dialog *)

Module Detalle.

(** The badge of the field [estado]: [getEstadoIcon] and [getEstadoColor]. *)
Inductive Icono := CheckCircleIcon | ExclamationTriangleIcon | XCircleIcon.

Definition getEstadoIcon (e : Estado) : Icono * string :=
  match e with
  | CONCILIADO => (CheckCircleIcon, "w-5 h-5 text-green-500")
  | PENDIENTE => (ExclamationTriangleIcon, "w-5 h-5 text-yellow-500")
  | MANUAL => (XCircleIcon, "w-5 h-5 text-red-500")
  end.

Definition getEstadoColor (e : Estado) : string :=
  match e with
  | CONCILIADO => "bg-green-100 text-green-800"
  | PENDIENTE => "bg-yellow-100 text-yellow-800"
  | MANUAL => "bg-red-100 text-red-800"
  end.

Definition getTipoColor (t : Tipo) : string :=
  match t with
  | cargo => "bg-red-100 text-red-800"
  | abono => "bg-green-100 text-green-800"
  end.

Definition texto_estado (e : Estado) : string :=
  match e with
  | PENDIENTE => "PENDIENTE"
  | CONCILIADO => "CONCILIADO"
  | MANUAL => "MANUAL"
  end.

(** [movimiento.tipo.toUpperCase()] *)
Definition tipo_toUpperCase (t : Tipo) : string :=
  match t with
  | cargo => "CARGO"
  | abono => "ABONO"
  end.

(** What [{x && <div>...</div>}] leaves in the page for an optional text:
    nothing when [x] is [undefined] or the empty string. *)
Definition si_texto (x : option string) : option string :=
  match x with
  | Some s => if String.eqb s "" then None else Some s
  | None => None
  end.

(** The "Saldo Resultante" paragraph: the formatted amount, or the grey
    italic placeholder. *)
Inductive ParrafoSaldo :=
| SaldoFormateado (texto : string)
| SaldoPlaceholder (texto : string).

(** The "Nivel de Confianza" cell: [{nivel_confianza && (...)}] shows
    nothing for [undefined], the number itself for [0], the bar otherwise. *)
Inductive CeldaConfianza :=
| SinConfianza
| CeroLiteral
| Barra (ancho porcentaje : string).

(** The blue "Informacion de Conciliacion" panel. *)
Record PanelConciliacion := {
  p_uuid : option string;
  p_confianza : CeldaConfianza;
  p_metodo : option string
}.

(** The dialog, field by field in the order of the JSX. *)
Record Dialogo := {
  d_show : bool;
  d_id : string;
  d_archivo_id : string;
  d_fecha : string;
  d_monto : string;
  d_estado_icono : Icono * string;
  d_estado_color : string;
  d_estado : string;
  d_tipo_color : string;
  d_tipo : string;
  d_concepto : string;
  d_referencia : option string;
  d_saldo : ParrafoSaldo;
  d_conciliacion : option PanelConciliacion;
  d_observaciones : option string;
  d_creado : string
}.

Section Componente.

(** Locale formatting of the browser: [n.toLocaleString('es-MX', {
    minimumFractionDigits: 2 })], [new Date(f).toLocaleDateString('es-MX',
    {...})], [new Date(f).toLocaleString('es-MX')], and the texts of
    [`${n}`], [`${x * 100}%`] and [(x * 100).toFixed(1)]. *)
Variable toLocaleString_esMX : Q → string.
Variable toLocaleDateString_esMX : string → string.
Variable toLocaleDateTime_esMX : string → string.
Variable texto_de_numero : Z → string.
Variable texto_de_Q : Q → string.
Variable toFixed1 : Q → string.

(** A method call [x.toLocaleString(...)] on a nullable number: it throws
    when the receiver is [null]. *)
Definition toLocaleString (receptor : option Q) : JsResult string :=
  match receptor with
  | Some n => Ok (toLocaleString_esMX n)
  | None => Throw TypeError
  end.

(** [{movimiento.saldo !== null ? `$${movimiento.saldo.toLocaleString(...)}`
     : <span>No disponible</span>}] *)
Definition parrafo_saldo (s : option Q) : JsResult ParrafoSaldo :=
  if bool_decide (s ≠ None)
  then t ← toLocaleString s; Ok (SaldoFormateado ("$" +:+ t))
  else Ok (SaldoPlaceholder "No disponible").

Definition texto_truthy (x : option string) : bool :=
  match si_texto x with
  | Some _ => true
  | None => false
  end.

Definition confianza_truthy (c : option Q) : bool :=
  match c with
  | Some q => negb (Qeq_bool q 0)
  | None => false
  end.

Definition celda_confianza (c : option Q) : CeldaConfianza :=
  match c with
  | None => SinConfianza
  | Some q =>
      if Qeq_bool q 0 then CeroLiteral
      else Barra (texto_de_Q (q * 100) +:+ "%") (toFixed1 (q * 100) +:+ "%")
  end.

(** [(cfdi_uuid || nivel_confianza || metodo_conciliacion) && (...)] *)
Definition panel_conciliacion (m : MovimientoBancario) : option PanelConciliacion :=
  if (texto_truthy (cfdi_uuid m) || confianza_truthy (nivel_confianza m)
      || texto_truthy (metodo_conciliacion m))%bool
  then Some {| p_uuid := si_texto (cfdi_uuid m);
               p_confianza := celda_confianza (nivel_confianza m);
               p_metodo := si_texto (metodo_conciliacion m) |}
  else None.

(** [MovimientoDetalle({ movimiento, isOpen, onClose })]: [Ok None] is the
    component returning [null]. *)
Definition MovimientoDetalle (movimiento : option MovimientoBancario) (isOpen : bool)
    : JsResult (option Dialogo) :=
  match movimiento with
  | None => Ok None
  | Some m =>
      s ← parrafo_saldo (saldo m);
      Ok (Some {|
        d_show := isOpen;
        d_id := "#" +:+ texto_de_numero (id m);
        d_archivo_id := "#" +:+ texto_de_numero (archivo_id m);
        d_fecha := toLocaleDateString_esMX (fecha m);
        d_monto := "$" +:+ toLocaleString_esMX (monto m);
        d_estado_icono := getEstadoIcon (estado m);
        d_estado_color := getEstadoColor (estado m);
        d_estado := texto_estado (estado m);
        d_tipo_color := getTipoColor (tipo m);
        d_tipo := tipo_toUpperCase (tipo m);
        d_concepto := concepto m;
        d_referencia := si_texto (referencia m);
        d_saldo := s;
        d_conciliacion := panel_conciliacion m;
        d_observaciones := si_texto (observaciones m);
        d_creado := "Creado: " +:+ toLocaleDateTime_esMX (created_at m)
      |})
  end.

End Componente.

End Detalle.

(** ** The forms that launch a reconciliation

    [ExecuteConciliationCard] (a component of its own) and
    [EjecutarConciliacion] (inside the reconciliation page) keep the same
    state and differ in the body of [executeInternal]. *)

Module MesAnio.
Record t := { mes : Z; anio : Z }.
End MesAnio.

Module Tolerancias.
Record t := { monto : Q; dias : Z }.
End Tolerancias.

Module Formulario.

(** The [useState] cells of either form. *)
Record Estado := {
  isExecuting : bool;
  mesAnio : MesAnio.t;
  tolerancias : Tolerancias.t
}.

(** [useState({ monto: 1.0, dias: 3 })] *)
Definition tolerancias_iniciales : Tolerancias.t :=
  {| Tolerancias.monto := 1; Tolerancias.dias := 3 |}.

(** The state at mount; [getMonth] and [getFullYear] are those of
    [new Date()] at that moment.  The inputs that write the cells afterwards
    are not modelled: the runs below are stated for any state. *)
Definition estado_inicial (getMonth getFullYear : Z) : Estado :=
  {| isExecuting := false;
     mesAnio := {| MesAnio.mes := getMonth + 1; MesAnio.anio := getFullYear |};
     tolerancias := tolerancias_iniciales |}.

(** The texts of the two [alert] calls.  The second one sits in the [catch]
    around the retry of the page; [executeInternal] handles every rejection
    itself and never rejects, so that [catch] is never entered. *)
Inductive Mensaje :=
| ErrorAlEjecutar      (* "Error al ejecutar conciliacion. Revisa la consola ..." *)
| ErrorAlForzar.       (* "Error al forzar el reproceso. Revisa la consola ..." *)

(** What [executeInternal] does to the outside, in order. *)
Inductive Evento :=
| SetIsExecuting (b : bool)
| Post (request : ConciliacionRequest)  (* [conciliacionAPI.ejecutarConciliacion] *)
| OnSuccess
| Confirm (periodo : MesAnio.t) (respuesta : bool)  (* [window.confirm] and the answer *)
| Alert (m : Mensaje)
| ConsoleError.

(** A run of [executeInternal]: the events so far, and whether the promise
    has settled ([false]: a request or a dialog is still waiting). *)
Record Corrida := {
  eventos : list Evento;
  terminada : bool
}.

(** [error?.response?.status] *)
Definition status_de (e : JsError) : option Z :=
  match e with
  | AxiosError s => s
  | TypeError => None
  end.

(** The [request] literal. *)
Definition construir_request (rfc : string) (st : Estado) (forzarReproceso : bool)
    : ConciliacionRequest :=
  {| rfc_empresa := rfc;
     mes := MesAnio.mes (mesAnio st);
     anio := MesAnio.anio (mesAnio st);
     tolerancia_monto := Some (Tolerancias.monto (tolerancias st));
     dias_tolerancia := Some (Tolerancias.dias (tolerancias st));
     forzar_reproceso := Some forzarReproceso |}.

(** The [await] of a nested [executeInternal(true)] and the [finally] that
    follows once it settles. *)
Definition luego_finally (antes : list Evento) (interna : Corrida) : Corrida :=
  if terminada interna
  then {| eventos := antes ++ eventos interna ++ [SetIsExecuting false]; terminada := true |}
  else {| eventos := antes ++ eventos interna; terminada := false |}.

Section Componentes.

(** The props, and the state captured by the closure. *)
Variable rfc : string.
Variable st : Estado.

(** [ExecuteConciliationCard.executeInternal].  [servidor] holds the outcome
    of each successive request and [usuario] the answer to each successive
    dialog; [onSuccess] tells whether the optional callback was given. *)
Fixpoint executeInternal_card (onSuccess : bool)
    (servidor : list (JsResult JSValue)) (usuario : list bool)
    (forzarReproceso : bool) {struct servidor} : Corrida :=
  if String.eqb rfc "" then {| eventos := []; terminada := true |}
  else
    let inicio := [SetIsExecuting true; Post (construir_request rfc st forzarReproceso)] in
    match servidor with
    | [] => {| eventos := inicio; terminada := false |}
    | Ok _ :: _ =>
        {| eventos := inicio ++ (if onSuccess then [OnSuccess] else [])
                             ++ [SetIsExecuting false];
           terminada := true |}
    | Throw error :: servidor' =>
        if decide (status_de error = Some 409%Z) then
          match usuario with
          | [] => {| eventos := inicio; terminada := false |}
          | confirmed :: usuario' =>
              let dialogo := inicio ++ [Confirm (mesAnio st) confirmed] in
              if confirmed
              then luego_finally dialogo
                     (executeInternal_card onSuccess servidor' usuario' true)
              else {| eventos := dialogo ++ [SetIsExecuting false]; terminada := true |}
          end
        else
          {| eventos := inicio ++ [Alert ErrorAlEjecutar; ConsoleError; SetIsExecuting false];
             terminada := true |}
    end.

(** [EjecutarConciliacion.executeInternal] in the page: the error is logged
    first, and the retry sits in a [try] of its own. *)
Fixpoint executeInternal_pagina
    (servidor : list (JsResult JSValue)) (usuario : list bool)
    (forzarReproceso : bool) {struct servidor} : Corrida :=
  if String.eqb rfc "" then {| eventos := []; terminada := true |}
  else
    let inicio := [SetIsExecuting true; Post (construir_request rfc st forzarReproceso)] in
    match servidor with
    | [] => {| eventos := inicio; terminada := false |}
    | Ok _ :: _ =>
        {| eventos := inicio ++ [OnSuccess; SetIsExecuting false]; terminada := true |}
    | Throw error :: servidor' =>
        if decide (status_de error = Some 409%Z) then
          match usuario with
          | [] => {| eventos := inicio ++ [ConsoleError]; terminada := false |}
          | confirmed :: usuario' =>
              let dialogo := inicio ++ [ConsoleError; Confirm (mesAnio st) confirmed] in
              if confirmed
              then luego_finally dialogo (executeInternal_pagina servidor' usuario' true)
              else {| eventos := dialogo ++ [SetIsExecuting false]; terminada := true |}
          end
        else
          {| eventos := inicio ++ [ConsoleError; Alert ErrorAlEjecutar; SetIsExecuting false];
             terminada := true |}
    end.

(** The button: [onClick={() => executeInternal(false)}] and [handleExecute]. *)
Definition onClick_card (onSuccess : bool) servidor usuario : Corrida :=
  executeInternal_card onSuccess servidor usuario false.

Definition handleExecute servidor usuario : Corrida :=
  executeInternal_pagina servidor usuario false.

End Componentes.

(** The requests a run sends, in order. *)
Definition solicitudes (es : list Evento) : list ConciliacionRequest :=
  omap (λ e, match e with Post r => Some r | _ => None end) es.

Definition es_post (e : Evento) : bool :=
  match e with Post _ => true | _ => false end.

Definition es_confirm (e : Evento) : bool :=
  match e with Confirm _ _ => true | _ => false end.

(** Neither a request nor a dialog. *)
Definition callado (e : Evento) : Prop := es_post e = false ∧ es_confirm e = false.

(** A request with the force flag at position [pre] of a trace was confirmed:
    the user answered "yes" to a dialog before it, and nothing was sent nor
    asked between that answer and the request. *)
Definition confirmada (pre : list Evento) : Prop :=
  ∃ antes periodo entre,
    pre = antes ++ Confirm periodo true :: entre ∧ Forall callado entre.

(** No request of the trace carries [forzar_reproceso: true] unless it was
    confirmed. *)
Definition solo_forzado_tras_confirmar (es : list Evento) : Prop :=
  ∀ pre request post,
    es = pre ++ Post request :: post →
    forzar_reproceso request = Some true →
    confirmada pre.

(** A monitor for the same property, run along the trace: [confirmado]
    holds while the last thing that happened, requests and dialogs only
    counted, is a dialog answered "yes". *)
Fixpoint monitor (confirmado : bool) (es : list Evento) : bool :=
  match es with
  | [] => true
  | Post request :: resto =>
      (if decide (forzar_reproceso request = Some true) then confirmado else true)
      && monitor false resto
  | Confirm _ respuesta :: resto => monitor respuesta resto
  | _ :: resto => monitor confirmado resto
  end.

End Formulario.

(** ** The matching engine behind [POST /api/v1/conciliacion/ejecutar]

    The engine ([app/conciliacion/conciliador.py], [router.py]) is not among
    the sources; every definition of this module is modelled from the
    specification, section by section, over the movement record above
    (status, matchedInvoiceId, confidence and matchMethod of the
    specification are [estado], [cfdi_uuid], [nivel_confianza] and
    [metodo_conciliacion]). *)

Module Motor.

(** Modelled from the spec: the engine's strategy enumeration is missing;
    section 4.3 lists six strategies. *)
Inductive Strategy :=
| Exact
| Reference
| Tolerance
| DeferredPayment
| WeightedHeuristic
| HistoricalPattern.

#[global] Instance Strategy_eq_dec : EqDecision Strategy.
Proof. solve_decision. Defined.

(** Modelled from the spec: the engine's pipeline order is missing; section
    4.3 fixes the priority order of the table. *)
Definition strategies : list Strategy :=
  [Exact; Reference; Tolerance; DeferredPayment; WeightedHeuristic; HistoricalPattern].

(** Modelled from the spec: the engine's acceptance thresholds are missing;
    section 4.4 makes them per strategy, "as listed above": 0.95, 0.90,
    0.80, 0.90, 0.85, 0.70. *)
Definition threshold (s : Strategy) : Q :=
  match s with
  | Exact => 95 # 100
  | Reference => 90 # 100
  | Tolerance => 80 # 100
  | DeferredPayment => 90 # 100
  | WeightedHeuristic => 85 # 100
  | HistoricalPattern => 70 # 100
  end.

(** Modelled from the spec: the engine's suggestion bound is missing; section
    4.3 retains the top K = 3. *)
Definition K : nat := 3.

(** Modelled from the spec: the engine's run configuration is missing;
    section 3 gives a run its toleranceAmount and toleranceDays. *)
Record Config := {
  toleranceAmount : Q;
  toleranceDays : Z
}.

(** Modelled from the spec: the engine's defaults are missing; the
    configuration documents [CONCILIACION_TOLERANCIA_MONTO=1.00] and
    [CONCILIACION_DIAS_TOLERANCIA=3], the specification "default 3". *)
Definition CONCILIACION_TOLERANCIA_MONTO : Q := 1.
Definition CONCILIACION_DIAS_TOLERANCIA : Z := 3.

Definition config_de (req : ConciliacionRequest) : Config :=
  {| toleranceAmount := default CONCILIACION_TOLERANCIA_MONTO (tolerancia_monto req);
     toleranceDays := default CONCILIACION_DIAS_TOLERANCIA (dias_tolerancia req) |}.

(** Modelled from the spec: the engine's candidate record is missing; section
    3 (MatchSuggestion) gives the candidate invoice, the confidence and the
    differences, section 4.3 ranks by the issue date of the invoice, and
    section 4.4 lets a deferred-payment match consume a subset of
    complement invoices ([complementSubset], empty for the other
    strategies). *)
Record Candidate := {
  candidateInvoiceUuid : string;
  complementSubset : list string;
  confidence : Q;
  amountDiff : Q;
  daysDiff : Z;
  issueDate : Z;
  textSimilarity : Q
}.

(** Modelled from the spec: the engine's tie-break is missing; section 4.3
    orders candidates by highest confidence, then smallest absolute amount
    difference, then smallest absolute date difference, then earliest issue
    date.  [Lt] says that [a] is preferred to [b]. *)
Definition lex (c1 c2 : comparison) : comparison :=
  match c1 with
  | Eq => c2
  | _ => c1
  end.

Definition compare_candidates (a b : Candidate) : comparison :=
  lex (confidence b ?= confidence a)%Q
   (lex (Qabs (amountDiff a) ?= Qabs (amountDiff b))%Q
     (lex (Z.abs (daysDiff a) ?= Z.abs (daysDiff b))%Z
          (issueDate a ?= issueDate b)%Z)).

(** The candidate that remains: one that none of the others is preferred
    to; among candidates that tie on the four keys, the first one. *)
Fixpoint best (cs : list Candidate) : option Candidate :=
  match cs with
  | [] => None
  | c :: rest =>
      match best rest with
      | Some d => if decide (compare_candidates d c = Lt) then Some d else Some c
      | None => Some c
      end
  end.

(** The tie-break of section 4.3 said in full: [a] is preferred to [b], or
    ties with it on the four keys. *)
Definition prefiere_o_empata (a b : Candidate) : Prop :=
  (confidence b < confidence a)%Q ∨
  ((confidence a == confidence b)%Q ∧
   ((Qabs (amountDiff a) < Qabs (amountDiff b))%Q ∨
    ((Qabs (amountDiff a) == Qabs (amountDiff b))%Q ∧
     ((Z.abs (daysDiff a) < Z.abs (daysDiff b))%Z ∨
      (Z.abs (daysDiff a) = Z.abs (daysDiff b) ∧ (issueDate a ≤ issueDate b)%Z))))).

(** A three-way comparison that ranks: "not after" is transitive, and two
    elements that tie have everything in between tie with them. *)
Definition orden {A} (cmp : A → A → comparison) : Prop :=
  ∀ a b c, cmp a b ≠ Gt → cmp b c ≠ Gt →
    cmp a c ≠ Gt ∧ (cmp a c = Eq → cmp a b = Eq ∧ cmp b c = Eq).

(** Modelled from the spec: the engine's claim operation is missing; section
    4.4 marks "the invoice (or complement subset)" as consumed.  A match
    consumes the invoice it references and, for a deferred-payment match,
    the complement invoices it sums. *)
Definition claims (c : Candidate) : list string :=
  candidateInvoiceUuid c :: complementSubset c.

Definition available (claimed : gset string) (c : Candidate) : bool :=
  bool_decide (Forall (λ u, u ∉ claimed) (claims c)).

Definition claim (claimed : gset string) (c : Candidate) : gset string :=
  list_to_set (claims c) ∪ claimed.

(** Modelled from the spec: the engine's ranking of suggestions is missing;
    "top-K" is read with the tie-break order, by insertion. *)
Fixpoint insert_ranked (x : Strategy * Candidate) (l : list (Strategy * Candidate))
    : list (Strategy * Candidate) :=
  match l with
  | [] => [x]
  | y :: rest =>
      if decide (compare_candidates x.2 y.2 = Lt) then x :: y :: rest
      else y :: insert_ranked x rest
  end.

Definition rank (l : list (Strategy * Candidate)) : list (Strategy * Candidate) :=
  foldr insert_ranked [] l.

(** [x] is ranked no later than [y]. *)
Definition no_despues (x y : Strategy * Candidate) : Prop :=
  compare_candidates x.2 y.2 ≠ Gt.

(** The outcome of the pipeline for one movement. *)
Inductive Decision :=
| Accept (s : Strategy) (c : Candidate)
| Defer (suggestions : list (Strategy * Candidate)).

Section Pipeline.

(** Modelled from the spec: the strategies themselves are missing; section 9
    gives them one interface, [evaluate(movement, index, config) ->
    candidates], over the candidate index of section 4.2.  The pipeline is
    stated for any index and any six implementations. *)
Variable Index : Type.
Variable evaluate : Strategy → MovimientoBancario → Index → Config → list Candidate.
(** The text stored in [metodo_conciliacion] for each strategy. *)
Variable metodo : Strategy → string.

Variable index : Index.
Variable config : Config.

(** The candidates of a strategy that are still unclaimed. *)
Definition candidates (s : Strategy) (m : MovimientoBancario) (claimed : gset string)
    : list Candidate :=
  filter (λ c, available claimed c = true) (evaluate s m index config).

(** Modelled from the spec: the engine's per-movement loop is missing;
    section 4.3: strategies in order, stop at the first whose best candidate
    meets its threshold; otherwise keep the top K of all candidates seen. *)
Fixpoint pipeline (ss : list Strategy) (m : MovimientoBancario) (claimed : gset string)
    (seen : list (Strategy * Candidate)) : Decision :=
  match ss with
  | [] => Defer (take K (rank seen))
  | s :: rest =>
      let cs := candidates s m claimed in
      match best cs with
      | Some c =>
          if Qle_bool (threshold s) (confidence c) then Accept s c
          else pipeline rest m claimed (seen ++ ((λ c, (s, c)) <$> cs))
      | None => pipeline rest m claimed seen
      end
  end.

Definition matchMovement (m : MovimientoBancario) (claimed : gset string) : Decision :=
  pipeline strategies m claimed [].

(** A strategy accepts: its best unclaimed candidate meets its threshold. *)
Definition accepts (m : MovimientoBancario) (claimed : gset string) (s : Strategy) : Prop :=
  ∃ c, best (candidates s m claimed) = Some c ∧ (threshold s <= confidence c)%Q.

(** All the unclaimed candidates of the strategies [ss], each with its
    strategy. *)
Definition todos (m : MovimientoBancario) (claimed : gset string) (ss : list Strategy)
    : list (Strategy * Candidate) :=
  ss ≫= λ s, (λ c, (s, c)) <$> candidates s m claimed.

(** Modelled from the spec: the engine's state update is missing; section
    4.4: on acceptance the movement becomes CONCILIADO with its invoice,
    confidence and method. *)
Definition conciliar (m : MovimientoBancario) (s : Strategy) (c : Candidate)
    : MovimientoBancario :=
  {| id := id m; empresa_id := empresa_id m; archivo_id := archivo_id m;
     fecha := fecha m; concepto := concepto m; monto := monto m; tipo := tipo m;
     referencia := referencia m; saldo := saldo m;
     estado := CONCILIADO;
     cfdi_uuid := Some (candidateInvoiceUuid c);
     nivel_confianza := Some (confidence c);
     metodo_conciliacion := Some (metodo s);
     observaciones := observaciones m; created_at := created_at m |}.

(** What a run produces: the movements in their final state, the decision
    taken for each movement the pipeline handled (with its position), and
    the invoices consumed. *)
Record Run := {
  movements : list MovimientoBancario;
  decisions : list (Z * Decision);
  claimed_set : gset string
}.

(** Modelled from the spec: the engine's run loop is missing; section 2:
    the pipeline is applied per movement, then the movement is updated;
    only PENDING movements enter it (section 4.6: CONCILIADO is reached
    from PENDING, MANUAL is terminal against the pipeline). *)
Fixpoint process (ms : list MovimientoBancario) (claimed : gset string) : Run :=
  match ms with
  | [] => {| movements := []; decisions := []; claimed_set := claimed |}
  | m :: rest =>
      match estado m with
      | PENDIENTE =>
          match matchMovement m claimed with
          | Accept s c =>
              let r := process rest (claim claimed c) in
              {| movements := conciliar m s c :: movements r;
                 decisions := (id m, Accept s c) :: decisions r;
                 claimed_set := claimed_set r |}
          | Defer sug =>
              let r := process rest claimed in
              {| movements := m :: movements r;
                 decisions := (id m, Defer sug) :: decisions r;
                 claimed_set := claimed_set r |}
          end
      | CONCILIADO | MANUAL =>
          let r := process rest claimed in
          {| movements := m :: movements r;
             decisions := decisions r;
             claimed_set := claimed_set r |}
      end
  end.

(** Modelled from the spec: the engine's reprocess step is missing; section
    4.6: CONCILIADO movements, not MANUAL ones, go back to PENDING. *)
Definition reset (m : MovimientoBancario) : MovimientoBancario :=
  match estado m with
  | CONCILIADO =>
      {| id := id m; empresa_id := empresa_id m; archivo_id := archivo_id m;
         fecha := fecha m; concepto := concepto m; monto := monto m; tipo := tipo m;
         referencia := referencia m; saldo := saldo m;
         estado := PENDIENTE;
         cfdi_uuid := None; nivel_confianza := None; metodo_conciliacion := None;
         observaciones := observaciones m; created_at := created_at m |}
  | PENDIENTE | MANUAL => m
  end.

End Pipeline.

(** The candidates a run accepted, in the order of the movements. *)
Definition aceptados (ds : list (Z * Decision)) : list Candidate :=
  omap (λ d, match d.2 with Accept _ c => Some c | Defer _ => None end) ds.

(** The invariant of section 3 on one movement: CONCILIADO comes with its
    invoice and its method. *)
Definition bien_formado (m : MovimientoBancario) : Prop :=
  estado m = CONCILIADO → is_Some (cfdi_uuid m) ∧ is_Some (metodo_conciliacion m).

(** A run is scoped to (company, month, year). *)
Abbreviation Scope := (string * Z * Z)%type.

Definition scope_de (req : ConciliacionRequest) : Scope :=
  (rfc_empresa req, mes req, anio req).

Inductive Resultado :=
| Conflicto
| Ejecutada (runs : gset Scope) (r : Run).

Section Servicio.

Variable Index : Type.
Variable evaluate : Strategy → MovimientoBancario → Index → Config → list Candidate.
Variable metodo : Strategy → string.

(** Modelled from the spec: the engine's entry point is missing; sections 5
    and 6: a run for a scope that already has one is refused with a conflict
    unless forceReprocess is set, in which case the CONCILIADO movements are
    reset before the pipeline runs again. *)
Definition ejecutar (runs : gset Scope) (req : ConciliacionRequest)
    (index : Index) (movs : list MovimientoBancario) : Resultado :=
  let force := default false (forzar_reproceso req) in
  if bool_decide (scope_de req ∈ runs) && negb force then Conflicto
  else
    let entrada := if force then reset <$> movs else movs in
    Ejecutada ({[scope_de req]} ∪ runs)
      (process Index evaluate metodo index (config_de req) entrada ∅).

(** Modelled from the spec: the HTTP layer is missing; the conflict is the
    status the forms test for, 409; a completed run answers with a summary
    whose statistics are not modelled. *)
Definition respuesta_http (r : Resultado) : JsResult JSValue :=
  match r with
  | Conflicto => Throw (AxiosError (Some 409%Z))
  | Ejecutada _ _ => Ok (JObj [("exito", JBool true)])
  end.

End Servicio.

(** Modelled from the spec: the candidate index is missing; section 4.2
    has it answer a lookup with a set of invoices, so that two executions
    on the same invoices see the same candidates for every strategy and
    movement, in an order the specification leaves open. *)
Definition mismos_candidatos {Index : Type}
    (evaluate1 evaluate2 : Strategy → MovimientoBancario → Index → Config → list Candidate)
    (index : Index) (config : Config) : Prop :=
  ∀ s m, evaluate1 s m index config ≡ₚ evaluate2 s m index config.

(** The four keys of section 4.3 tell the candidates of a movement apart:
    two of them that tie on all four are the same candidate of the same
    strategy. *)
Definition sin_empates {Index : Type}
    (evaluate : Strategy → MovimientoBancario → Index → Config → list Candidate)
    (index : Index) (config : Config) : Prop :=
  ∀ m s s' c c',
    c ∈ evaluate s m index config → c' ∈ evaluate s' m index config →
    compare_candidates c c' = Eq → s = s' ∧ c = c'.

End Motor.

(** ** A small run, used to exercise the engine

    Two pending movements that both match invoice [UUID-A] exactly, a second
    invoice [UUID-B] that ties with it except for the date, one movement
    assigned by hand and one matched by an earlier run. *)

Module Ejemplo.
Import Motor.

(** The index is a table of candidates per strategy and movement. *)
Abbreviation Tabla := (Strategy → Z → list Candidate).

Definition evaluate_tabla (s : Strategy) (m : MovimientoBancario) (t : Tabla) (_ : Config)
    : list Candidate :=
  t s (id m).

Definition metodo_texto (s : Strategy) : string :=
  match s with
  | Exact => "exacto"
  | Reference => "referencia"
  | Tolerance => "aproximado"
  | DeferredPayment => "complemento_ppd"
  | WeightedHeuristic => "heuristica"
  | HistoricalPattern => "patron"
  end.

Definition candidato (uuid : string) (conf : Q) (dias fecha_emision : Z) : Candidate :=
  {| candidateInvoiceUuid := uuid; complementSubset := []; confidence := conf;
     amountDiff := 0; daysDiff := dias; issueDate := fecha_emision;
     textSimilarity := 0 |}.

Definition tabla : Tabla := λ s mov,
  match s with
  | Exact =>
      if (mov =? 1)%Z then [candidato "UUID-A" (95 # 100) 1 100]
      else if (mov =? 2)%Z
      then [candidato "UUID-B" (95 # 100) 2 99; candidato "UUID-A" (95 # 100) 1 100]
      else []
  | Tolerance =>
      if (mov =? 5)%Z then [candidato "UUID-C" (60 # 100) 3 98] else []
  | _ => []
  end.

Definition movimiento (n : Z) (e : Estado) (uuid : option string) (met : option string)
    : MovimientoBancario :=
  {| id := n; empresa_id := 1; archivo_id := 1; fecha := "2024-01-10";
     concepto := "SPEI"; monto := 1500; tipo := abono; referencia := None;
     saldo := None; estado := e; cfdi_uuid := uuid;
     nivel_confianza := match uuid with Some _ => Some (95 # 100) | None => None end;
     metodo_conciliacion := met; observaciones := None;
     created_at := "2024-02-01T00:00:00" |}.

Definition pendientes : list MovimientoBancario :=
  [movimiento 1 PENDIENTE None None;
   movimiento 2 PENDIENTE None None;
   movimiento 3 MANUAL (Some "UUID-M") None;
   movimiento 5 PENDIENTE None None].

Definition ya_conciliados : list MovimientoBancario :=
  [movimiento 1 CONCILIADO (Some "UUID-A") (Some "exacto");
   movimiento 3 MANUAL (Some "UUID-M") None;
   movimiento 2 PENDIENTE None None].

Definition solicitud (forzar : option bool) : ConciliacionRequest :=
  {| rfc_empresa := "ABC123456789"; mes := 1; anio := 2024;
     tolerancia_monto := Some 1%Q; dias_tolerancia := Some 3%Z;
     forzar_reproceso := forzar |}.

Definition correr (entrada : list MovimientoBancario) : Run :=
  process Tabla evaluate_tabla metodo_texto tabla
    (config_de (solicitud None)) entrada ∅.

(** The same table read from the other end. *)
Definition evaluate_tabla_inversa (s : Strategy) (m : MovimientoBancario) (t : Tabla)
    (_ : Config) : list Candidate :=
  reverse (t s (id m)).

(** Two invoices of the same amount, day and issue date: as candidates of
    the first movement they tie on the four keys. *)
Definition tabla_empate : Tabla := λ s mov,
  match s with
  | Exact =>
      if (mov =? 1)%Z
      then [candidato "UUID-X" (95 # 100) 1 100; candidato "UUID-Y" (95 # 100) 1 100]
      else []
  | _ => []
  end.

End Ejemplo.

(** ** The rest of [conciliacionAPI], and [chatsAPI.getAll] *)

Module ApiConciliacion.

(** The value [obtenerArchivos] resolves with: [{ archivos, total }]. *)
Record Archivos := {
  archivos : JSValue;
  total : JSValue
}.

(** [v.length]: the number of elements of an array, the length of a string;
    reading it on [null] or [undefined] throws, other values have none. *)
Definition length_de (v : JSValue) : JsResult JSValue :=
  match v with
  | JUndefined | JNull => Throw TypeError
  | JArr xs => Ok (JNum (Z.of_nat (length xs)))
  | JStr s => Ok (JNum (Z.of_nat (String.length s)))
  | _ => Ok JUndefined
  end.

Section Cliente.

Variable api_get : string → JsResult JSValue.
Variable texto_de_numero : Z → string.

(** [obtenerArchivos]: [Array.isArray(response.data) ? response.data : []],
    then [{ archivos, total: archivos.length }]. *)
Definition obtenerArchivos (empresaId : Z) : JsResult Archivos :=
  data ← api_get ("/api/v1/conciliacion/archivos/" +:+ texto_de_numero empresaId);
  let archivos := if es_arreglo data then data else JArr [] in
  n ← length_de archivos;
  Ok {| archivos := archivos; total := n |}.

(** [obtenerEstadisticas]: [response.data] as it comes. *)
Definition obtenerEstadisticas (empresaId : Z) : JsResult JSValue :=
  api_get ("/api/v1/conciliacion/estadisticas/" +:+ texto_de_numero empresaId).

End Cliente.

End ApiConciliacion.

Module ChatsApi.

(** Neither [undefined] nor [null]: a value whose properties can be read. *)
Definition definido (v : JSValue) : Prop := v ≠ JUndefined ∧ v ≠ JNull.

(** The object literal built for each conversation. *)
Record Chat := {
  id : JSValue;
  titulo : JSValue;
  created_at : JSValue;
  updated_at : JSValue
}.

(** [try { cuerpo } catch (error) { return alterno }] *)
Definition try_catch {A} (cuerpo : JsResult A) (alterno : A) : JsResult A :=
  match cuerpo with
  | Ok a => Ok a
  | Throw _ => Ok alterno
  end.

Section Cliente.

Variable api_get : string → JsResult JSValue.
(** [String(v)] inside a template literal. *)
Variable String_ : JSValue → string.

(** The callback of [conversaciones.map]: the fields are read in the order
    of the literal; the template is evaluated only when [conv.titulo] is
    falsy. *)
Definition convertir (conv : JSValue) : JsResult Chat :=
  i ← leer conv "id";
  t ← leer conv "titulo";
  t' ← (if truthy t then Ok t
        else i' ← leer conv "id"; Ok (JStr ("Conversación " +:+ String_ i')));
  c ← leer conv "created_at";
  u ← leer conv "updated_at";
  Ok {| id := i; titulo := t'; created_at := c; updated_at := u |}.

(** [Array.prototype.map] with a callback that may throw. *)
Fixpoint map_js {A} (f : JSValue → JsResult A) (xs : list JSValue) : JsResult (list A) :=
  match xs with
  | [] => Ok []
  | x :: resto => y ← f x; ys ← map_js f resto; Ok (y :: ys)
  end.

(** [chatsAPI.getAll(rfc)] *)
Definition getAll (rfc : string) : JsResult (list Chat) :=
  try_catch
    (conversaciones ← api_get ("/api/v1/conversacion/conversaciones/" +:+ rfc);
     match conversaciones with
     | JArr xs => map_js convertir xs
     | _ => Ok []
     end)
    [].

End Cliente.

End ChatsApi.

(** ** [FiltrosMovimientos.tsx], second component: [UploadCard]; and
    [SubirEstadoCuenta] of the page *)

Module Subida.

(** What [handleUpload] does to the outside, in order. *)
Inductive Evento :=
| SetIsUploading (b : bool)
| PostRfc (rfc : string)          (* [conciliacionAPI.subirEstadoCuenta(rfc, file)] *)
| PostEmpresa (empresaId : Z)     (* [conciliacionAPI.subirEstadoCuentaEmpresa(empresaId, file)] *)
| SetResult (r : JSValue)         (* [setResult] / [setUploadResult] *)
| OnSuccess.

(** The object shown when the upload fails. *)
Definition resultado_error : JSValue :=
  JObj [("exito", JBool false);
        ("mensaje", JStr "Error al procesar el archivo");
        ("total_movimientos_extraidos", JNum 0);
        ("errores", JArr [JStr "Error de conexión"]);
        ("tiempo_procesamiento_segundos", JNum 0)].

(** [r?.exito] *)
Definition exito_opcional (r : JSValue) : JsResult JSValue :=
  match r with
  | JUndefined | JNull => Ok JUndefined
  | _ => leer r "exito"
  end.

(** [UploadCard.handleUpload].  [file] tells whether a file is selected,
    [empresaId] and [rfc] are the optional props ([typeof empresaId ===
    'number'] is [Some]), [onSuccess] whether the callback was given, and
    [respuesta] is how the request settles. *)
Definition handleUpload_card (file : bool) (empresaId : option Z) (rfc : option string)
    (onSuccess : bool) (respuesta : JsResult JSValue) : list Evento :=
  if negb file then []
  else
    SetIsUploading true ::
    match empresaId, rfc with
    | Some n, _ =>
        PostEmpresa n ::
        match respuesta with
        | Ok r =>
            SetResult r ::
            match exito_opcional r with
            | Ok e => (if truthy e && onSuccess then [OnSuccess] else [])
                       ++ [SetIsUploading false]
            | Throw _ => [SetResult resultado_error; SetIsUploading false]
            end
        | Throw _ => [SetResult resultado_error; SetIsUploading false]
        end
    | None, Some s =>
        if String.eqb s "" then [SetResult resultado_error; SetIsUploading false]
        else
          PostRfc s ::
          match respuesta with
          | Ok r =>
              SetResult r ::
              match exito_opcional r with
              | Ok e => (if truthy e && onSuccess then [OnSuccess] else [])
                         ++ [SetIsUploading false]
              | Throw _ => [SetResult resultado_error; SetIsUploading false]
              end
          | Throw _ => [SetResult resultado_error; SetIsUploading false]
          end
    | None, None => [SetResult resultado_error; SetIsUploading false]
    end.

(** [SubirEstadoCuenta.handleUpload] of the page: [rfc] and [onSuccess] are
    required props, and [result.exito] is read without the [?.]. *)
Definition handleUpload_pagina (file : bool) (rfc : string)
    (respuesta : JsResult JSValue) : list Evento :=
  if negb file || String.eqb rfc "" then []
  else
    SetIsUploading true :: PostRfc rfc ::
    match respuesta with
    | Ok result =>
        SetResult result ::
        match leer result "exito" with
        | Ok e => (if truthy e then [OnSuccess] else []) ++ [SetIsUploading false]
        | Throw _ => [SetResult resultado_error; SetIsUploading false]
        end
    | Throw _ => [SetResult resultado_error; SetIsUploading false]
    end.

(** The request [UploadCard] makes, if any: by company id when it is given,
    else by RFC when that is given and not empty. *)
Definition destino (empresaId : option Z) (rfc : option string) : option Evento :=
  match empresaId, rfc with
  | Some n, _ => Some (PostEmpresa n)
  | None, Some s => if String.eqb s "" then None else Some (PostRfc s)
  | None, None => None
  end.

(** Whether [r?.exito] is truthy. *)
Definition exito_truthy (r : JSValue) : bool :=
  match exito_opcional r with
  | Ok e => truthy e
  | Throw _ => false
  end.

Definition es_definido (v : JSValue) : bool :=
  match v with
  | JUndefined | JNull => false
  | _ => true
  end.

(** The component state a trace leaves: the last [setResult] and the last
    [setIsUploading]. *)
Definition ultimo_resultado (es : list Evento) : option JSValue :=
  last (omap (λ e, match e with SetResult r => Some r | _ => None end) es).

Definition ultimo_isUploading (es : list Evento) : option bool :=
  last (omap (λ e, match e with SetIsUploading b => Some b | _ => None end) es).

Definition es_request (e : Evento) : bool :=
  match e with PostRfc _ | PostEmpresa _ => true | _ => false end.

End Subida.

(** ** [Header]: the company selector *)

Module Header.

(** [interface EmpresaContribuyente], the fields the header uses. *)
Record EmpresaContribuyente := {
  id : Z;
  rfc : string;
  razon_social : string
}.

(** The context value [rfcEmpresa] and the [useState] cells. *)
Record Estado := {
  rfcEmpresa : string;
  empresas : list EmpresaContribuyente;
  loading : bool;
  isDropdownOpen : bool
}.

(** [useState([])], [useState(true)], [useState(false)], and the context
    default [''] . *)
Definition estado_inicial : Estado :=
  {| rfcEmpresa := ""; empresas := []; loading := true; isDropdownOpen := false |}.

(** [conciliacionAPI.getEmpresasContribuyentes]: the list, or [[]] when the
    request fails. *)
Definition getEmpresasContribuyentes
    (respuesta : JsResult (list EmpresaContribuyente)) : list EmpresaContribuyente :=
  match respuesta with
  | Ok data => data
  | Throw _ => []
  end.

(** [fetchEmpresas]: the list is stored; the first company is selected when
    none is; [loading] ends. *)
Definition fetchEmpresas (respuesta : JsResult (list EmpresaContribuyente)) (st : Estado)
    : Estado :=
  let empresasData := getEmpresasContribuyentes respuesta in
  {| rfcEmpresa :=
       match empresasData with
       | primera :: _ => if String.eqb (rfcEmpresa st) "" then rfc primera else rfcEmpresa st
       | [] => rfcEmpresa st
       end;
     empresas := empresasData;
     loading := false;
     isDropdownOpen := isDropdownOpen st |}.

(** The effect [useEffect(..., [rfcEmpresa, setRfcEmpresa])]: it runs, and
    runs again each time the run before changed [rfcEmpresa].  [servidor]
    holds the answer to each successive request; the result is the state
    reached and the number of requests made. *)
Fixpoint efecto (servidor : list (JsResult (list EmpresaContribuyente))) (st : Estado)
    : Estado * nat :=
  match servidor with
  | [] => (st, 0)
  | respuesta :: resto =>
      let st' := fetchEmpresas respuesta st in
      if String.eqb (rfcEmpresa st') (rfcEmpresa st) then (st', 1)
      else let '(st'', n) := efecto resto st' in (st'', S n)
  end.

(** [handleRfcChange(rfc)] *)
Definition handleRfcChange (nuevo : string) (st : Estado) : Estado :=
  {| rfcEmpresa := nuevo; empresas := empresas st; loading := loading st;
     isDropdownOpen := false |}.

(** [empresas.find(emp => emp.rfc === rfcEmpresa)] *)
Definition empresaActual (st : Estado) : option EmpresaContribuyente :=
  find (λ emp, String.eqb (rfc emp) (rfcEmpresa st)) (empresas st).

(** [{empresaActual?.rfc || rfcEmpresa}] *)
Definition rfc_mostrado (st : Estado) : string :=
  match empresaActual st with
  | Some emp => if String.eqb (rfc emp) "" then rfcEmpresa st else rfc emp
  | None => rfcEmpresa st
  end.

End Header.

(** ** [Sidebar]: which entries are highlighted *)

Module Sidebar.

(** The [href] of each entry of [navigation]. *)
Definition navigation : list string :=
  ["/conciliacion"; "/conciliacion/reportes"; "/conciliacion/docs"; "/subir-estado"].

(** [pathname === item.href || (item.href === "/conciliacion" &&
    pathname.startsWith("/conciliacion"))] *)
Definition isActive (pathname href : string) : bool :=
  String.eqb pathname href
  || (String.eqb href "/conciliacion" && String.prefix "/conciliacion" pathname).

Definition activos (pathname : string) : list string :=
  filter (λ href, isActive pathname href = true) navigation.

End Sidebar.

(** ** [ConciliacionPage]: loading the data of the page *)

Module Pagina.

(** The [useState] cells that [cargarDatos] writes. *)
Record Estado := {
  estadisticas : JSValue;
  movimientos : JSValue;
  archivos : JSValue;
  loading : bool
}.

(** [useState(null)], [useState([])], [useState([])], [useState(true)] *)
Definition estado_inicial : Estado :=
  {| estadisticas := JNull; movimientos := JArr []; archivos := JArr [];
     loading := true |}.

(** [obj[k] = v] on an object kept as its entries in the order the keys
    were created: an existing key keeps its place. *)
Fixpoint asignar (k : string) (v : JSValue) (obj : list (string * JSValue))
    : list (string * JSValue) :=
  match obj with
  | [] => [(k, v)]
  | (k', v') :: resto =>
      if decide (k' = k) then (k, v) :: resto else (k', v') :: asignar k v resto
  end.

(** The order in which [Object.keys] lists the keys of an object: the
    array indices first, by ascending value, then the other keys in the
    order they were created.  An array index is the decimal numeral,
    without leading zeros, of an integer below 2^32 - 1. *)
Definition digito (c : Ascii.ascii) : option N :=
  let n := Ascii.N_of_ascii c in
  if ((48 <=? n) && (n <=? 57))%N then Some (n - 48)%N else None.

Fixpoint numeral (s : string) (acc : N) : option N :=
  match s with
  | EmptyString => Some acc
  | String c resto =>
      match digito c with
      | Some d => numeral resto (10 * acc + d)%N
      | None => None
      end
  end.

Definition indice (k : string) : option N :=
  match k with
  | EmptyString => None
  | String c resto =>
      if (Ascii.N_of_ascii c =? 48)%N && negb (String.eqb resto "") then None
      else match numeral k 0 with
           | Some n => if (n <? 4294967295)%N then Some n else None
           | None => None
           end
  end.

Definition antes {A} (a b : N * A) : Prop := (a.1 ≤ b.1)%N.

#[global] Instance antes_dec {A} : RelDecision (@antes A) :=
  λ a b, decide (a.1 ≤ b.1)%N.

Definition con_indice (kv : string * JSValue) : option (N * (string * JSValue)) :=
  match indice kv.1 with
  | Some n => Some (n, kv)
  | None => None
  end.

Definition en_orden_de_claves (obj : list (string * JSValue)) : list (string * JSValue) :=
  (snd <$> merge_sort antes (omap con_indice obj))
  ++ filter (λ kv, indice kv.1 = None) obj.

(** [{ page: 1, size: 50, ...filtrosActivos }]: the properties as they are
    created, [filtrosActivos] being given by its entries. *)
Definition literal (filtrosActivos : list (string * string)) : list (string * JSValue) :=
  foldl (λ obj kv, asignar kv.1 (JStr kv.2) obj)
        [("page", JNum 1); ("size", JNum 50)] filtrosActivos.

(** The same object as [obtenerMovimientos] walks it. *)
Definition filtros_de (filtrosActivos : list (string * string)) : list (string * JSValue) :=
  en_orden_de_claves (literal filtrosActivos).

(** [rfcEmpresa === 'IDE2001209V6' ? 2 : 1] *)
Definition empresaId_de (rfcEmpresa : string) : Z :=
  if String.eqb rfcEmpresa "IDE2001209V6" then 2 else 1.

Section Carga.

Variable api_get : string → JsResult JSValue.
Variable String_ : JSValue → string.
Variable texto_de_numero : Z → string.
Variable params_toString : list (string * string) → string.

(** [cargarDatos]: nothing without a company; otherwise the three requests
    of the [Promise.all], the three setters when all of them resolve, and
    [setLoading(false)] in the [finally]. *)
Definition cargarDatos (rfcEmpresa : string) (filtrosActivos : list (string * string))
    (st : Estado) : Estado :=
  if String.eqb rfcEmpresa "" then st
  else
    let empresaId := empresaId_de rfcEmpresa in
    match ApiConciliacion.obtenerEstadisticas api_get texto_de_numero empresaId,
          Api.obtenerMovimientos api_get String_ texto_de_numero params_toString
            empresaId (Some (filtros_de filtrosActivos)),
          ApiConciliacion.obtenerArchivos api_get texto_de_numero empresaId
    with
    | Ok statsData, Ok movimientosData, Ok archivosData =>
        {| estadisticas := statsData;
           movimientos := o_bien (Api.movimientos movimientosData) (JArr []);
           archivos := o_bien (ApiConciliacion.archivos archivosData) (JArr []);
           loading := false |}
    | _, _, _ =>
        {| estadisticas := estadisticas st; movimientos := movimientos st;
           archivos := archivos st; loading := false |}
    end.

End Carga.

End Pagina.

(** ** Counting along the runs of the forms *)

Module Conteo.
Import Formulario.

Definition es_si (e : Evento) : bool :=
  match e with Confirm _ true => true | _ => false end.

Definition es_no (e : Evento) : bool :=
  match e with Confirm _ false => true | _ => false end.

Definition es_onSuccess (e : Evento) : bool :=
  match e with OnSuccess => true | _ => false end.

Definition es_alert (e : Evento) : bool :=
  match e with Alert _ => true | _ => false end.

Definition cuenta (p : Evento → bool) (es : list Evento) : nat :=
  length (filter (λ e, p e = true) es).

(** How many times a run came to an end the user sees: the success
    callback, the error alert, or a "no" to the dialog. *)
Definition desenlaces (es : list Evento) : nat :=
  cuenta es_onSuccess es + cuenta es_alert es + cuenta es_no es.

(** The value of [isExecuting] a trace leaves: the last [setIsExecuting]. *)
Definition ultimo_isExecuting (es : list Evento) : option bool :=
  last (omap (λ e, match e with SetIsExecuting b => Some b | _ => None end) es).

End Conteo.

(** * Properties *)

(** ** The filter form *)

Section FiltrosProps.
Import Filtros.

Lemma filtrosLimpios_lookup (o : Registro) k v :
  filtrosLimpios o !! k = Some v ↔ o !! k = Some v ∧ v ≠ "".
Proof. unfold filtrosLimpios. by rewrite map_lookup_filter_Some. Qed.

Lemma filtrosLimpios_sin_vacios (o : Registro) : sin_vacios (filtrosLimpios o).
Proof. intros k v Hkv. by apply filtrosLimpios_lookup in Hkv as [_ ?]. Qed.

Lemma manejar_sin_vacios filtros a : sin_vacios (emitido (manejar filtros a)).
Proof.
  destruct a as [campo valor|]; simpl.
  - apply filtrosLimpios_sin_vacios.
  - intros k v Hkv. by rewrite lookup_empty in Hkv.
Qed.

Lemma emisiones_sin_vacios acciones :
  ∀ filtros, Forall sin_vacios (emisiones filtros acciones).
Proof.
  induction acciones as [|a resto IH]; intros filtros; simpl.
  - constructor.
  - constructor; [apply manejar_sin_vacios | apply IH].
Qed.

(** C9: every map that FiltrosMovimientos hands to onFiltrosChange holds
    only non-empty strings.  An input change emits exactly the entries of
    the updated state whose value is not the empty string; clearing emits
    the empty map; and so every emission of a session, whatever the user
    does and from whatever state, has no empty value. *)
Theorem filtros_emitidos_sin_vacios :
  (∀ (filtros : Registro) campo valor k v,
      emitido (handleInputChange filtros campo valor) !! k = Some v ↔
      (<[campo := valor]> filtros) !! k = Some v ∧ v ≠ "") ∧
  (∀ filtros : Registro, emitido (limpiarFiltros filtros) = ∅) ∧
  (∀ (filtros : Registro) acciones,
      Forall (λ m : Registro, ∀ k v, m !! k = Some v → v ≠ "")
             (emisiones filtros acciones)).
Proof.
  split; [|split].
  - intros filtros campo valor k v. apply filtrosLimpios_lookup.
  - reflexivity.
  - intros filtros acciones. apply emisiones_sin_vacios.
Qed.

End FiltrosProps.

(** ** The detail dialog *)

Section DetalleProps.
Import Detalle.

Variable toLocaleString_esMX : Q → string.
Variable toLocaleDateString_esMX : string → string.
Variable toLocaleDateTime_esMX : string → string.
Variable texto_de_numero : Z → string.
Variable texto_de_Q : Q → string.
Variable toFixed1 : Q → string.

Local Abbreviation render :=
  (MovimientoDetalle toLocaleString_esMX toLocaleDateString_esMX
     toLocaleDateTime_esMX texto_de_numero texto_de_Q toFixed1).

Lemma parrafo_saldo_ok (s : option Q) :
  parrafo_saldo toLocaleString_esMX s =
  Ok (match s with
      | Some q => SaldoFormateado ("$" +:+ toLocaleString_esMX q)
      | None => SaldoPlaceholder "No disponible"
      end).
Proof.
  unfold parrafo_saldo. destruct s as [q|].
  - rewrite bool_decide_eq_true_2 by done. reflexivity.
  - rewrite bool_decide_eq_false_2 by (intros H; by apply H). reflexivity.
Qed.

(** C10: the detail view is total.  With a null movimiento it returns null;
    with a movement it renders, whatever the fields hold: the only nullable
    field it calls a method on is saldo, and a null saldo is answered by the
    placeholder "No disponible" while a number is formatted.  No rendering
    throws on a null dereference. *)
Theorem MovimientoDetalle_total :
  (∀ isOpen, render None isOpen = Ok None) ∧
  (∀ m isOpen, ∃ d,
      render (Some m) isOpen = Ok (Some d) ∧
      d_saldo d = match saldo m with
                  | Some q => SaldoFormateado ("$" +:+ toLocaleString_esMX q)
                  | None => SaldoPlaceholder "No disponible"
                  end) ∧
  (∀ movimiento isOpen e, render movimiento isOpen ≠ Throw e).
Proof.
  assert (Hsome : ∀ m isOpen, ∃ d,
      render (Some m) isOpen = Ok (Some d) ∧
      d_saldo d = match saldo m with
                  | Some q => SaldoFormateado ("$" +:+ toLocaleString_esMX q)
                  | None => SaldoPlaceholder "No disponible"
                  end).
  { intros m isOpen. unfold MovimientoDetalle. rewrite parrafo_saldo_ok.
    eexists. split; reflexivity. }
  split; [reflexivity|]. split; [exact Hsome|].
  intros [m|] isOpen e.
  - destruct (Hsome m isOpen) as (d & -> & _). discriminate.
  - discriminate.
Qed.

End DetalleProps.

(** ** The API client *)

Section ApiProps.
Import Api.

Lemma leer_definido (data : JSValue) (k : string) :
  data ≠ JNull → data ≠ JUndefined → ∃ v, leer data k = Ok v.
Proof. intros Hn Hu. destruct data; simpl; eauto; congruence. Qed.

Lemma o_bien_arreglo (v : JSValue) :
  es_arreglo v = true ∨ truthy v = false → es_arreglo (o_bien v (JArr [])) = true.
Proof. unfold o_bien. intros [H|H]; destruct (truthy v); try done. Qed.

Lemma o_bien_numero (v : JSValue) :
  es_numero v = true ∨ truthy v = false → es_numero (o_bien v (JNum 0)) = true.
Proof. unfold o_bien. intros [H|H]; destruct (truthy v); try done. Qed.

(** C8, as stated, fails on two shapes of response data.  With the body
    [null] the read of [response.data.items] throws; with [items] holding a
    string the field [movimientos] is that string, not an array. *)
Lemma obtenerMovimientos_no_siempre_definido :
  ¬ resultado_definido
      (obtenerMovimientos (λ _, Ok JNull) (λ _, "") (λ _, "1") (λ _, "") 1 None) ∧
  ¬ resultado_definido
      (obtenerMovimientos
         (λ _, Ok (JObj [("items", JStr "abc"); ("total", JNum 7)]))
         (λ _, "") (λ _, "1") (λ _, "") 1 None).
Proof.
  split; intros (m & Hm & Harr & Hnum).
  - discriminate Hm.
  - vm_compute in Hm. injection Hm as <-. discriminate Harr.
Qed.

(** C8, amended: when the request resolves with response data other than
    null and undefined, obtenerMovimientos returns an object whose
    movimientos field is the data's items value if that value is truthy and
    the empty list otherwise, and whose total field is the data's total
    value if truthy and 0 otherwise; so whenever items is an array or falsy
    (absent, null) and total is a number or falsy, the result has a defined
    array and a defined number. *)
Theorem obtenerMovimientos_mapea
    (api_get : string → JsResult JSValue) (String_ : JSValue → string)
    (texto_de_numero : Z → string) (params_toString : list (string * string) → string)
    (empresaId : Z) (filtros : option (list (string * JSValue))) (data : JSValue) :
  api_get (construir_url String_ texto_de_numero params_toString empresaId filtros) = Ok data →
  data ≠ JNull →
  data ≠ JUndefined →
  ∃ items tot,
    leer data "items" = Ok items ∧
    leer data "total" = Ok tot ∧
    obtenerMovimientos api_get String_ texto_de_numero params_toString empresaId filtros =
      Ok {| movimientos := if truthy items then items else JArr [];
            total := if truthy tot then tot else JNum 0 |} ∧
    ((es_arreglo items = true ∨ truthy items = false) →
     (es_numero tot = true ∨ truthy tot = false) →
     resultado_definido
       (obtenerMovimientos api_get String_ texto_de_numero params_toString empresaId filtros)).
Proof.
  intros Hget Hn Hu.
  destruct (leer_definido data "items" Hn Hu) as [items Hi].
  destruct (leer_definido data "total" Hn Hu) as [tot Ht].
  exists items, tot.
  assert (Hres : obtenerMovimientos api_get String_ texto_de_numero params_toString
                   empresaId filtros =
                 Ok {| movimientos := o_bien items (JArr []);
                       total := o_bien tot (JNum 0) |}).
  { unfold obtenerMovimientos. rewrite Hget. simpl. unfold mapear.
    rewrite Hi. simpl. rewrite Ht. reflexivity. }
  split; [done|]. split; [done|]. split; [exact Hres|].
  intros Harr Hnum. rewrite Hres. eexists. split; [reflexivity|]. simpl.
  split; [by apply o_bien_arreglo | by apply o_bien_numero].
Qed.

(** The amended C8 on a page of one movement and a count. *)
Lemma obtenerMovimientos_mapea_witness :
  ∃ items tot,
    leer (JObj [("items", JArr [JObj [("id", JNum 1)]]); ("total", JNum 1)]) "items"
      = Ok items ∧
    leer (JObj [("items", JArr [JObj [("id", JNum 1)]]); ("total", JNum 1)]) "total"
      = Ok tot ∧
    obtenerMovimientos
      (λ _, Ok (JObj [("items", JArr [JObj [("id", JNum 1)]]); ("total", JNum 1)]))
      (λ _, "") (λ _, "1") (λ _, "") 1 None =
      Ok {| movimientos := if truthy items then items else JArr [];
            total := if truthy tot then tot else JNum 0 |} ∧
    ((es_arreglo items = true ∨ truthy items = false) →
     (es_numero tot = true ∨ truthy tot = false) →
     resultado_definido
       (obtenerMovimientos
          (λ _, Ok (JObj [("items", JArr [JObj [("id", JNum 1)]]); ("total", JNum 1)]))
          (λ _, "") (λ _, "1") (λ _, "") 1 None)).
Proof.
  apply (obtenerMovimientos_mapea
           (λ _, Ok (JObj [("items", JArr [JObj [("id", JNum 1)]]); ("total", JNum 1)]))
           (λ _, "") (λ _, "1") (λ _, "") 1 None
           (JObj [("items", JArr [JObj [("id", JNum 1)]]); ("total", JNum 1)])).
  - reflexivity.
  - discriminate.
  - discriminate.
Defined.

End ApiProps.

(** ** The forms *)

Section FormularioProps.
Import Formulario.

Lemma monitor_sound es :
  ∀ confirmado, monitor confirmado es = true →
  ∀ pre request post,
    es = pre ++ Post request :: post →
    forzar_reproceso request = Some true →
    confirmada pre ∨ (confirmado = true ∧ Forall callado pre).
Proof.
  induction es as [|e es IH]; intros confirmado Hm pre request post Heq Hf.
  - by destruct pre.
  - destruct pre as [|e' pre]; simplify_eq/=.
    + right. split; [|constructor].
      rewrite decide_True in Hm by done. by apply andb_true_iff in Hm as [? _].
    + destruct e' as [x|rq| |per resp|msg| ]; simpl in Hm.
      * destruct (IH _ Hm _ _ _ eq_refl Hf) as [(a & p & b & -> & Hq)|[-> Hq]].
        -- left. exists (SetIsExecuting x :: a), p, b. done.
        -- right. split; [done|]. constructor; [done|done].
      * apply andb_true_iff in Hm as [_ Hm].
        destruct (IH _ Hm _ _ _ eq_refl Hf) as [(a & p & b & -> & Hq)|[? _]]; [|done].
        left. exists (Post rq :: a), p, b. done.
      * destruct (IH _ Hm _ _ _ eq_refl Hf) as [(a & p & b & -> & Hq)|[-> Hq]].
        -- left. exists (OnSuccess :: a), p, b. done.
        -- right. split; [done|]. constructor; [done|done].
      * destruct (IH _ Hm _ _ _ eq_refl Hf) as [(a & p & b & -> & Hq)|[-> Hq]].
        -- left. exists (Confirm per resp :: a), p, b. done.
        -- left. exists [], per, pre. done.
      * destruct (IH _ Hm _ _ _ eq_refl Hf) as [(a & p & b & -> & Hq)|[-> Hq]].
        -- left. exists (Alert msg :: a), p, b. done.
        -- right. split; [done|]. constructor; [done|done].
      * destruct (IH _ Hm _ _ _ eq_refl Hf) as [(a & p & b & -> & Hq)|[-> Hq]].
        -- left. exists (ConsoleError :: a), p, b. done.
        -- right. split; [done|]. constructor; [done|done].
Qed.

Lemma monitor_fin es :
  ∀ confirmado, monitor confirmado (es ++ [SetIsExecuting false]) = monitor confirmado es.
Proof.
  induction es as [|e es IH]; intros confirmado; [done|].
  destruct e; simpl; by rewrite ?IH.
Qed.

Lemma monitor_luego_finally confirmado antes interna :
  monitor confirmado (eventos (luego_finally antes interna)) =
  monitor confirmado (antes ++ eventos interna).
Proof.
  unfold luego_finally. destruct (terminada interna); simpl; [|done].
  by rewrite app_assoc, monitor_fin.
Qed.

Lemma monitor_card rfc st onSuccess servidor :
  ∀ usuario forzar confirmado,
    (forzar = true → confirmado = true) →
    monitor confirmado
      (eventos (executeInternal_card rfc st onSuccess servidor usuario forzar)) = true.
Proof.
  induction servidor as [|resp servidor IH]; intros usuario forzar confirmado Hc; simpl;
    destruct (String.eqb rfc ""); try done; simpl.
  - destruct forzar; simpl; [by rewrite Hc|done].
  - assert (Hpost : (if decide (Some forzar = Some true) then confirmado else true) = true).
    { destruct forzar; simpl; [by rewrite Hc|done]. }
    destruct resp as [v|error]; simpl.
    + rewrite Hpost. by destruct onSuccess.
    + destruct (decide (status_de error = Some 409%Z)); simpl; [|by rewrite Hpost].
      destruct usuario as [|confirmed usuario]; simpl; [by rewrite Hpost|].
      destruct confirmed; simpl; [|by rewrite Hpost].
      rewrite monitor_luego_finally. simpl. rewrite Hpost. simpl. by apply IH.
Qed.

Lemma monitor_pagina rfc st servidor :
  ∀ usuario forzar confirmado,
    (forzar = true → confirmado = true) →
    monitor confirmado
      (eventos (executeInternal_pagina rfc st servidor usuario forzar)) = true.
Proof.
  induction servidor as [|resp servidor IH]; intros usuario forzar confirmado Hc; simpl;
    destruct (String.eqb rfc ""); try done; simpl.
  - destruct forzar; simpl; [by rewrite Hc|done].
  - assert (Hpost : (if decide (Some forzar = Some true) then confirmado else true) = true).
    { destruct forzar; simpl; [by rewrite Hc|done]. }
    destruct resp as [v|error]; simpl.
    + by rewrite Hpost.
    + destruct (decide (status_de error = Some 409%Z)); simpl; [|by rewrite Hpost].
      destruct usuario as [|confirmed usuario]; simpl; [by rewrite Hpost|].
      destruct confirmed; simpl; [|by rewrite Hpost].
      rewrite monitor_luego_finally. simpl. rewrite Hpost. simpl. by apply IH.
Qed.

Lemma monitor_solo_forzado es :
  monitor false es = true → solo_forzado_tras_confirmar es.
Proof.
  intros Hm pre request post Heq Hf.
  destruct (monitor_sound es false Hm pre request post Heq Hf) as [?|[? _]]; done.
Qed.

End FormularioProps.

Section SolicitudesProps.
Import Formulario Conteo.

Lemma solicitudes_app a b : solicitudes (a ++ b) = solicitudes a ++ solicitudes b.
Proof. unfold solicitudes. apply omap_app. Qed.

Lemma cuenta_app p a b : cuenta p (a ++ b) = cuenta p a + cuenta p b.
Proof. unfold cuenta. by rewrite filter_app, length_app. Qed.

Lemma cuenta_uno_false p e : p e = false → cuenta p [e] = 0.
Proof.
  intros Hp. unfold cuenta. rewrite filter_cons, decide_False; [done|]. by rewrite Hp.
Qed.

Lemma solicitudes_luego_finally antes interna :
  solicitudes (eventos (luego_finally antes interna)) =
  solicitudes antes ++ solicitudes (eventos interna).
Proof.
  unfold luego_finally. destruct (terminada interna); simpl.
  - rewrite !solicitudes_app. simpl. by rewrite app_nil_r.
  - by rewrite solicitudes_app.
Qed.

Lemma cuenta_luego_finally p antes interna :
  p (SetIsExecuting false) = false →
  cuenta p (eventos (luego_finally antes interna)) =
  cuenta p antes + cuenta p (eventos interna).
Proof.
  intros Hp. unfold luego_finally. destruct (terminada interna); simpl.
  - rewrite !cuenta_app. rewrite (cuenta_uno_false p (SetIsExecuting false)) by done. lia.
  - by rewrite cuenta_app.
Qed.

Lemma solicitudes_de_card rfc st onSuccess servidor :
  rfc ≠ "" →
  ∀ usuario forzar,
    solicitudes (eventos (executeInternal_card rfc st onSuccess servidor usuario forzar)) =
    construir_request rfc st forzar ::
    replicate
      (cuenta es_si (eventos (executeInternal_card rfc st onSuccess servidor usuario forzar)))
      (construir_request rfc st true).
Proof.
  intros Hrfc. apply String.eqb_neq in Hrfc.
  induction servidor as [|resp servidor IH]; intros usuario forzar; simpl; rewrite Hrfc.
  - done.
  - destruct resp as [v|error]; simpl.
    + by destruct onSuccess.
    + destruct (decide (status_de error = Some 409%Z)); simpl; [|done].
      destruct usuario as [|confirmed usuario]; simpl; [done|].
      destruct confirmed; simpl; [|done].
      rewrite solicitudes_luego_finally, cuenta_luego_finally by done.
      rewrite IH. done.
Qed.

Lemma solicitudes_de_pagina rfc st servidor :
  rfc ≠ "" →
  ∀ usuario forzar,
    solicitudes (eventos (executeInternal_pagina rfc st servidor usuario forzar)) =
    construir_request rfc st forzar ::
    replicate
      (cuenta es_si (eventos (executeInternal_pagina rfc st servidor usuario forzar)))
      (construir_request rfc st true).
Proof.
  intros Hrfc. apply String.eqb_neq in Hrfc.
  induction servidor as [|resp servidor IH]; intros usuario forzar; simpl; rewrite Hrfc.
  - done.
  - destruct resp as [v|error]; simpl; [done|].
    destruct (decide (status_de error = Some 409%Z)); simpl; [|done].
    destruct usuario as [|confirmed usuario]; simpl; [done|].
    destruct confirmed; simpl; [|done].
    rewrite solicitudes_luego_finally, cuenta_luego_finally by done.
    rewrite IH. done.
Qed.

(** C7: the tolerances of both forms start at monto 1.00 and dias 3, and
    while they are left at that (the period may have been changed) a click
    on either form with a company selected does send a request, the first
    one of the run, whose tolerancia_monto is 1.00 and dias_tolerancia is 3;
    every later request of the run, the retries with the force flag, carries
    the same two values.  The documented configuration of the engine has
    the same values, and they are what a request without tolerances falls
    back to. *)
Theorem tolerancias_por_defecto :
  Formulario.tolerancias_iniciales
    = {| Tolerancias.monto := 1; Tolerancias.dias := 3 |} ∧
  (∀ getMonth getFullYear,
      tolerancias (estado_inicial getMonth getFullYear) = tolerancias_iniciales) ∧
  (∀ rfc st onSuccess servidor usuario,
      rfc ≠ "" →
      tolerancias st = tolerancias_iniciales →
      ∃ reintentos,
        solicitudes (eventos (onClick_card rfc st onSuccess servidor usuario)) =
          {| rfc_empresa := rfc;
             mes := MesAnio.mes (mesAnio st);
             anio := MesAnio.anio (mesAnio st);
             tolerancia_monto := Some 1%Q;
             dias_tolerancia := Some 3%Z;
             forzar_reproceso := Some false |} :: reintentos ∧
        Forall (λ request, tolerancia_monto request = Some 1%Q ∧
                           dias_tolerancia request = Some 3%Z) reintentos) ∧
  (∀ rfc st servidor usuario,
      rfc ≠ "" →
      tolerancias st = tolerancias_iniciales →
      ∃ reintentos,
        solicitudes (eventos (handleExecute rfc st servidor usuario)) =
          {| rfc_empresa := rfc;
             mes := MesAnio.mes (mesAnio st);
             anio := MesAnio.anio (mesAnio st);
             tolerancia_monto := Some 1%Q;
             dias_tolerancia := Some 3%Z;
             forzar_reproceso := Some false |} :: reintentos ∧
        Forall (λ request, tolerancia_monto request = Some 1%Q ∧
                           dias_tolerancia request = Some 3%Z) reintentos) ∧
  Motor.CONCILIACION_TOLERANCIA_MONTO = 1%Q ∧
  Motor.CONCILIACION_DIAS_TOLERANCIA = 3%Z ∧
  (∀ request,
      tolerancia_monto request = None → dias_tolerancia request = None →
      Motor.config_de request = {| Motor.toleranceAmount := 1; Motor.toleranceDays := 3 |}).
Proof.
  split; [reflexivity|]. split; [reflexivity|].
  split; [|split; [|split; [reflexivity|split; [reflexivity|]]]].
  - intros rfc st onSuccess servidor usuario Hrfc Hst.
    unfold onClick_card. rewrite (solicitudes_de_card rfc st onSuccess servidor Hrfc).
    unfold construir_request. rewrite Hst. simpl.
    eexists. split; [reflexivity|]. by apply Forall_replicate.
  - intros rfc st servidor usuario Hrfc Hst.
    unfold handleExecute. rewrite (solicitudes_de_pagina rfc st servidor Hrfc).
    unfold construir_request. rewrite Hst. simpl.
    eexists. split; [reflexivity|]. by apply Forall_replicate.
  - intros request Hm Hd. unfold Motor.config_de. by rewrite Hm, Hd.
Qed.

End SolicitudesProps.

Section ConflictoProps.
Import Formulario.

Lemma ejecutar_conflicto Index evaluate metodo runs request (index : Index) movs :
  Motor.scope_de request ∈ runs →
  forzar_reproceso request ≠ Some true →
  Motor.ejecutar Index evaluate metodo runs request index movs = Motor.Conflicto.
Proof.
  intros Hin Hf. unfold Motor.ejecutar.
  rewrite bool_decide_eq_true_2 by done.
  destruct (forzar_reproceso request) as [[|]|]; simpl; done.
Qed.

(** C1: a request without the force flag for a scope that already has a run
    is answered with the conflict, HTTP 409, and nothing is run; both forms
    tell that status from any other failure (a dialog, not the generic
    alert); and in every run of either form, started by the button, a
    request carries forzar_reproceso = true only after the user answered
    "yes" to a confirmation dialog, with no other request or dialog in
    between. *)
Theorem conflicto_y_reproceso_confirmado :
  (∀ Index evaluate metodo runs request (index : Index) movs,
      Motor.scope_de request ∈ runs →
      forzar_reproceso request ≠ Some true →
      Motor.ejecutar Index evaluate metodo runs request index movs = Motor.Conflicto ∧
      Motor.respuesta_http
        (Motor.ejecutar Index evaluate metodo runs request index movs)
        = Throw (AxiosError (Some 409%Z))) ∧
  (∀ rfc st onSuccess servidor usuario,
      solo_forzado_tras_confirmar
        (eventos (onClick_card rfc st onSuccess servidor usuario))) ∧
  (∀ rfc st servidor usuario,
      solo_forzado_tras_confirmar (eventos (handleExecute rfc st servidor usuario))) ∧
  (∀ rfc st onSuccess servidor usuario error,
      rfc ≠ "" →
      eventos (onClick_card rfc st onSuccess (Throw error :: servidor) (false :: usuario)) =
        if decide (status_de error = Some 409%Z)
        then [SetIsExecuting true; Post (construir_request rfc st false);
              Confirm (mesAnio st) false; SetIsExecuting false]
        else [SetIsExecuting true; Post (construir_request rfc st false);
              Alert ErrorAlEjecutar; ConsoleError; SetIsExecuting false]) ∧
  (∀ rfc st servidor usuario error,
      rfc ≠ "" →
      eventos (handleExecute rfc st (Throw error :: servidor) (false :: usuario)) =
        if decide (status_de error = Some 409%Z)
        then [SetIsExecuting true; Post (construir_request rfc st false);
              ConsoleError; Confirm (mesAnio st) false; SetIsExecuting false]
        else [SetIsExecuting true; Post (construir_request rfc st false);
              ConsoleError; Alert ErrorAlEjecutar; SetIsExecuting false]).
Proof.
  split; [|split; [|split; [|split]]].
  - intros Index evaluate metodo runs request index movs Hin Hf.
    rewrite ejecutar_conflicto by done. done.
  - intros. apply monitor_solo_forzado. by apply monitor_card.
  - intros. apply monitor_solo_forzado. by apply monitor_pagina.
  - intros rfc st onSuccess servidor usuario error Hrfc.
    unfold onClick_card. simpl.
    destruct (String.eqb_spec rfc "") as [->|_]; [done|].
    by destruct (decide (status_de error = Some 409%Z)).
  - intros rfc st servidor usuario error Hrfc.
    unfold handleExecute. simpl.
    destruct (String.eqb_spec rfc "") as [->|_]; [done|].
    by destruct (decide (status_de error = Some 409%Z)).
Qed.

End ConflictoProps.

(** ** The engine: ranking of candidates *)

Section RankingProps.
Import Motor.

Lemma orden_lex {A} (cmp1 cmp2 : A → A → comparison) :
  orden cmp1 → orden cmp2 → orden (λ a b, lex (cmp1 a b) (cmp2 a b)).
Proof.
  intros H1 H2 a b c Hab Hbc.
  assert (Hab1 : cmp1 a b ≠ Gt) by (intros E; rewrite E in Hab; done).
  assert (Hbc1 : cmp1 b c ≠ Gt) by (intros E; rewrite E in Hbc; done).
  destruct (H1 a b c Hab1 Hbc1) as [Hac1 Heq1].
  destruct (cmp1 a c) eqn:Eac; simpl; [|done|done].
  destruct (Heq1 eq_refl) as [Eab Ebc]. rewrite Eab in Hab |- *. rewrite Ebc in Hbc |- *.
  simpl in *. by apply H2.
Qed.

Lemma orden_Q {A} (f : A → Q) : orden (λ a b, f a ?= f b)%Q.
Proof.
  intros a b c Hab Hbc. rewrite <- Qle_alt in Hab, Hbc.
  split.
  - rewrite <- Qle_alt. by eapply Qle_trans.
  - rewrite <- !Qeq_alt. intros Hac. split; apply Qle_antisym; try done.
    + rewrite Hac. done.
    + rewrite <- Hac. done.
Qed.

Lemma orden_Q_desc {A} (f : A → Q) : orden (λ a b, f b ?= f a)%Q.
Proof.
  intros a b c Hab Hbc.
  destruct (orden_Q f c b a Hbc Hab) as [H1 H2]. split; [done|].
  intros E. by destruct (H2 E).
Qed.

Lemma orden_Z {A} (f : A → Z) : orden (λ a b, f a ?= f b)%Z.
Proof.
  intros a b c Hab Hbc. rewrite !Z.compare_eq_iff.
  rewrite Z.compare_le_iff in Hab, Hbc |- *. lia.
Qed.

Lemma compare_candidates_orden : orden compare_candidates.
Proof.
  unfold compare_candidates.
  apply (orden_lex (λ a b, confidence b ?= confidence a)%Q); [apply orden_Q_desc|].
  apply (orden_lex (λ a b, Qabs (amountDiff a) ?= Qabs (amountDiff b))%Q);
    [apply (orden_Q (λ a, Qabs (amountDiff a)))|].
  apply (orden_lex (λ a b, Z.abs (daysDiff a) ?= Z.abs (daysDiff b))%Z);
    [apply (orden_Z (λ a, Z.abs (daysDiff a)))|].
  apply (orden_Z issueDate).
Qed.

Lemma lex_opp c1 c2 : lex (CompOpp c1) (CompOpp c2) = CompOpp (lex c1 c2).
Proof. by destruct c1. Qed.

Lemma compare_candidates_antisym a b :
  compare_candidates b a = CompOpp (compare_candidates a b).
Proof.
  unfold compare_candidates. rewrite <- !lex_opp.
  by rewrite !Qcompare_antisym, <- !Z.compare_antisym.
Qed.

Lemma compare_candidates_refl a : compare_candidates a a = Eq.
Proof.
  pose proof (compare_candidates_antisym a a) as H.
  by destruct (compare_candidates a a).
Qed.

Lemma prefiere_o_empata_spec a b :
  compare_candidates a b ≠ Gt ↔ prefiere_o_empata a b.
Proof.
  unfold compare_candidates, prefiere_o_empata, lex.
  destruct (Qcompare_spec (confidence b) (confidence a)) as [E1|L1|G1].
  - destruct (Qcompare_spec (Qabs (amountDiff a)) (Qabs (amountDiff b))) as [E2|L2|G2].
    + destruct (Z.compare_spec (Z.abs (daysDiff a)) (Z.abs (daysDiff b))) as [E3|L3|G3].
      * rewrite Z.compare_le_iff. split.
        -- intros H. right. split; [by symmetry|]. right. split; [done|]. right. done.
        -- intros [H|[_ [H|[_ [H|[_ H]]]]]]; try done.
           ++ rewrite E1 in H. by apply Qlt_irrefl in H.
           ++ rewrite E2 in H. by apply Qlt_irrefl in H.
           ++ lia.
      * split; [|done]. intros _. right. split; [by symmetry|]. right. split; [done|].
        by left.
      * split; [done|]. intros [H|[_ [H|[_ [H|[H _]]]]]]; try lia.
        -- rewrite E1 in H. by apply Qlt_irrefl in H.
        -- rewrite E2 in H. by apply Qlt_irrefl in H.
    + split; [|done]. intros _. right. split; [by symmetry|]. by left.
    + split; [done|]. intros [H|[_ [H|[H _]]]].
      * rewrite E1 in H. by apply Qlt_irrefl in H.
      * exfalso. eapply Qlt_irrefl, Qlt_trans; eauto.
      * rewrite H in G2. by apply Qlt_irrefl in G2.
  - split; [|done]. intros _. by left.
  - split; [done|]. intros [H|[H _]].
    + exfalso. eapply Qlt_irrefl, Qlt_trans; eauto.
    + rewrite H in G1. by apply Qlt_irrefl in G1.
Qed.

Lemma best_is_Some cs : cs ≠ [] → is_Some (best cs).
Proof.
  destruct cs as [|c cs]; [done|]. intros _. simpl.
  destruct (best cs); [|by eexists]. case_decide; by eexists.
Qed.

Lemma best_None cs : best cs = None → cs = [].
Proof.
  destruct cs as [|c cs]; [done|]. intros H.
  destruct (best_is_Some (c :: cs)) as [b Hb]; [done|]. congruence.
Qed.

Lemma best_elem cs : ∀ b, best cs = Some b → b ∈ cs.
Proof.
  induction cs as [|c cs IH]; intros b Hb; simpl in Hb; [done|].
  destruct (best cs) as [d|]; [|simplify_eq; by left].
  case_decide; simplify_eq; [right; by apply IH|by left].
Qed.

Lemma best_pref cs : ∀ b, best cs = Some b → ∀ c, c ∈ cs → compare_candidates b c ≠ Gt.
Proof.
  induction cs as [|x cs IH]; intros b Hb c Hc; simpl in Hb; [by apply elem_of_nil in Hc|].
  destruct (best cs) as [d|] eqn:Hd.
  - case_decide as Hdx; simplify_eq.
    + apply elem_of_cons in Hc as [->|Hc]; [by rewrite Hdx|by apply IH].
    + apply elem_of_cons in Hc as [->|Hc]; [by rewrite compare_candidates_refl|].
      assert (Hbd : compare_candidates b d ≠ Gt).
      { rewrite compare_candidates_antisym. by destruct (compare_candidates d b). }
      by apply (compare_candidates_orden b d c Hbd (IH d eq_refl c Hc)).
  - simplify_eq. apply best_None in Hd as ->.
    apply list_elem_of_singleton in Hc as ->. by rewrite compare_candidates_refl.
Qed.

Lemma best_perm cs1 cs2 b1 b2 :
  cs1 ≡ₚ cs2 → best cs1 = Some b1 → best cs2 = Some b2 →
  compare_candidates b1 b2 = Eq.
Proof.
  intros Hp H1 H2.
  assert (H12 : compare_candidates b1 b2 ≠ Gt).
  { apply (best_pref cs1 b1 H1). rewrite Hp. by apply best_elem. }
  assert (H21 : compare_candidates b2 b1 ≠ Gt).
  { apply (best_pref cs2 b2 H2). rewrite <- Hp. by apply best_elem. }
  rewrite compare_candidates_antisym in H21.
  by destruct (compare_candidates b1 b2).
Qed.

End RankingProps.

(** ** The engine: the pipeline of one movement *)

Section PipelineProps.
Import Motor.

Variable Index : Type.
Variable evaluate : Strategy → MovimientoBancario → Index → Config → list Candidate.
Variable metodo : Strategy → string.
Variable index : Index.
Variable config : Config.

Local Abbreviation candidates := (Motor.candidates Index evaluate index config).
Local Abbreviation pipeline := (Motor.pipeline Index evaluate index config).
Local Abbreviation matchMovement := (Motor.matchMovement Index evaluate index config).
Local Abbreviation accepts := (Motor.accepts Index evaluate index config).
Local Abbreviation todos := (Motor.todos Index evaluate index config).

Lemma rank_perm l : rank l ≡ₚ l.
Proof.
  induction l as [|x l IH]; simpl; [done|].
  rewrite <- IH at 2. generalize (rank l). clear.
  intros l. induction l as [|y l IH]; simpl; [done|].
  case_decide; [done|]. rewrite IH. apply Permutation_swap.
Qed.

Lemma insert_ranked_hd x y l :
  no_despues y x → HdRel no_despues y l → HdRel no_despues y (insert_ranked x l).
Proof.
  intros Hyx Hl. destruct l as [|z l]; simpl; [by constructor|].
  case_decide; constructor; [done|]. by inversion Hl.
Qed.

Lemma insert_ranked_sorted x l :
  Sorted no_despues l → Sorted no_despues (insert_ranked x l).
Proof.
  induction l as [|y l IH]; intros Hs; simpl.
  - by repeat constructor.
  - inversion Hs as [|? ? Hl Hhd]; subst. case_decide as Hxy.
    + constructor; [done|]. constructor. unfold no_despues. by rewrite Hxy.
    + constructor; [by apply IH|]. apply insert_ranked_hd; [|done].
      unfold no_despues. rewrite compare_candidates_antisym.
      by destruct (compare_candidates x.2 y.2).
Qed.

Lemma rank_sorted l : Sorted no_despues (rank l).
Proof.
  induction l as [|x l IH]; simpl; [constructor|]. by apply insert_ranked_sorted.
Qed.

Lemma pipeline_accept_inv m claimed ss :
  ∀ seen s c, pipeline ss m claimed seen = Accept s c →
    ∃ pre post, ss = pre ++ s :: post ∧
                Forall (λ s', ¬ accepts m claimed s') pre ∧
                best (candidates s m claimed) = Some c ∧
                (threshold s <= confidence c)%Q.
Proof.
  induction ss as [|s0 ss IH]; intros seen s c H; simpl in H; [done|].
  destruct (best (candidates s0 m claimed)) as [c0|] eqn:Hb.
  - destruct (Qle_bool (threshold s0) (confidence c0)) eqn:Hq.
    + simplify_eq. exists [], ss. split; [done|]. split; [constructor|].
      split; [done|]. by apply Qle_bool_iff.
    + destruct (IH _ _ _ H) as (pre & post & -> & Hpre & Hbest & Hthr).
      exists (s0 :: pre), post. split; [done|]. split; [|done].
      constructor; [|done]. intros (c' & Hc' & Hle). rewrite Hb in Hc'. simplify_eq.
      apply Qle_bool_iff in Hle. congruence.
  - destruct (IH _ _ _ H) as (pre & post & -> & Hpre & Hbest & Hthr).
    exists (s0 :: pre), post. split; [done|]. split; [|done].
    constructor; [|done]. intros (c' & Hc' & _). rewrite Hb in Hc'. done.
Qed.

Lemma pipeline_skip m claimed s0 ss seen :
  ¬ accepts m claimed s0 →
  pipeline (s0 :: ss) m claimed seen =
  pipeline ss m claimed (seen ++ ((λ c, (s0, c)) <$> candidates s0 m claimed)).
Proof.
  intros Hno. simpl.
  destruct (best (candidates s0 m claimed)) as [c0|] eqn:Hb.
  - destruct (Qle_bool (threshold s0) (confidence c0)) eqn:Hq; [|done].
    exfalso. apply Hno. exists c0. split; [done|]. by apply Qle_bool_iff.
  - apply best_None in Hb. rewrite Hb. simpl. by rewrite app_nil_r.
Qed.

Lemma pipeline_accept m claimed pre :
  ∀ post s c seen,
    Forall (λ s', ¬ accepts m claimed s') pre →
    best (candidates s m claimed) = Some c →
    (threshold s <= confidence c)%Q →
    pipeline (pre ++ s :: post) m claimed seen = Accept s c.
Proof.
  induction pre as [|s0 pre IH]; intros post s c seen Hpre Hb Hthr.
  - simpl. rewrite Hb. apply Qle_bool_iff in Hthr. by rewrite Hthr.
  - inversion Hpre; subst. simpl app. rewrite pipeline_skip by done. by apply IH.
Qed.

Lemma pipeline_defer m claimed ss :
  ∀ seen, Forall (λ s', ¬ accepts m claimed s') ss →
    pipeline ss m claimed seen = Defer (take K (rank (seen ++ todos m claimed ss))).
Proof.
  induction ss as [|s0 ss IH]; intros seen Hall.
  - simpl. unfold Motor.todos. simpl. by rewrite app_nil_r.
  - inversion Hall; subst. rewrite pipeline_skip by done. rewrite IH by done.
    unfold Motor.todos. simpl. by rewrite app_assoc.
Qed.

Lemma pipeline_defer_inv m claimed ss :
  ∀ seen sug, pipeline ss m claimed seen = Defer sug →
    Forall (λ s', ¬ accepts m claimed s') ss.
Proof.
  induction ss as [|s0 ss IH]; intros seen sug H; [constructor|].
  simpl in H.
  destruct (best (candidates s0 m claimed)) as [c0|] eqn:Hb.
  - destruct (Qle_bool (threshold s0) (confidence c0)) eqn:Hq; [done|].
    constructor; [|by eapply IH].
    intros (c' & Hc' & Hle). rewrite Hb in Hc'. simplify_eq.
    apply Qle_bool_iff in Hle. congruence.
  - constructor; [|by eapply IH].
    intros (c' & Hc' & _). rewrite Hb in Hc'. done.
Qed.

Lemma accept_available m claimed s c :
  matchMovement m claimed = Accept s c → Forall (λ u, u ∉ claimed) (claims c).
Proof.
  intros H. apply pipeline_accept_inv in H as (_ & _ & _ & _ & Hb & _).
  apply best_elem in Hb. apply list_elem_of_filter in Hb as [Hav _].
  unfold available in Hav. by apply bool_decide_eq_true in Hav.
Qed.


End PipelineProps.

(** ** The engine: a run over the movements *)

Section RunProps.
Import Motor.

Variable Index : Type.
Variable evaluate : Strategy → MovimientoBancario → Index → Config → list Candidate.
Variable metodo : Strategy → string.
Variable index : Index.
Variable config : Config.

Local Abbreviation matchMovement := (Motor.matchMovement Index evaluate index config).
Local Abbreviation process := (Motor.process Index evaluate metodo index config).

Lemma process_length ms : ∀ claimed, length (movements (process ms claimed)) = length ms.
Proof.
  induction ms as [|m ms IH]; intros claimed; simpl; [done|].
  destruct (estado m); simpl; [|by rewrite IH..].
  destruct (matchMovement m claimed); simpl; by rewrite IH.
Qed.

Lemma process_claimed_mono ms :
  ∀ claimed, claimed ⊆ claimed_set (process ms claimed).
Proof.
  induction ms as [|m ms IH]; intros claimed; simpl; [done|].
  destruct (estado m); simpl; [|by apply IH..].
  destruct (matchMovement m claimed); simpl; [|by apply IH].
  etrans; [|apply IH]. unfold claim. set_solver.
Qed.

(** A movement that the pipeline does not own keeps its place and its
    content. *)
Lemma process_frame ms :
  ∀ claimed i m, ms !! i = Some m → estado m ≠ PENDIENTE →
                 movements (process ms claimed) !! i = Some m.
Proof.
  induction ms as [|m0 ms IH]; intros claimed i m Hi Hm; [done|].
  destruct i as [|i]; simpl in Hi.
  - simplify_eq. simpl. by destruct (estado m).
  - simpl. destruct (estado m0); simpl; [|by apply IH..].
    destruct (matchMovement m0 claimed); simpl; by apply IH.
Qed.

(** Every movement of the result is the input movement of the same place,
    or that movement, PENDIENTE before, matched by the pipeline. *)
Lemma process_lookup ms :
  ∀ claimed i m', movements (process ms claimed) !! i = Some m' →
    ms !! i = Some m' ∨
    ∃ m s c, ms !! i = Some m ∧ estado m = PENDIENTE ∧ m' = conciliar metodo m s c ∧
             Forall (λ u, u ∉ claimed) (claims c) ∧
             Forall (λ u, u ∈ claimed_set (process ms claimed)) (claims c).
Proof.
  induction ms as [|m0 ms IH]; intros claimed i m' Hi; [done|].
  simpl in Hi |- *.
  destruct (estado m0) eqn:He; simpl in Hi |- *.
  - destruct (matchMovement m0 claimed) as [s c|sug] eqn:Hd; simpl in Hi |- *.
    + destruct i as [|i]; simpl in Hi |- *.
      * simplify_eq. right. exists m0, s, c. split; [done|]. split; [done|].
        split; [done|]. split; [by eapply accept_available|].
        apply Forall_forall. intros u Hu.
        apply (process_claimed_mono ms (claim claimed c)). unfold claim.
        apply elem_of_union_l. by apply elem_of_list_to_set.
      * destruct (IH _ _ _ Hi) as [?|(m & s' & c' & ? & ? & ? & Hfree & Hin)]; [by left|].
        right. exists m, s', c'. repeat (split; [done|]). split; [|done].
        eapply Forall_impl; [exact Hfree|]. unfold claim. set_solver.
    + destruct i as [|i]; simpl in Hi |- *; [left; by simplify_eq|].
      destruct (IH _ _ _ Hi) as [?|(m & s' & c' & ? & ? & ? & Hfree & Hin)]; [by left|].
      right. by exists m, s', c'.
  - destruct i as [|i]; simpl in Hi |- *; [left; by simplify_eq|].
    destruct (IH _ _ _ Hi) as [?|(m & s' & c' & ? & ? & ? & Hfree & Hin)]; [by left|].
    right. by exists m, s', c'.
  - destruct i as [|i]; simpl in Hi |- *; [left; by simplify_eq|].
    destruct (IH _ _ _ Hi) as [?|(m & s' & c' & ? & ? & ? & Hfree & Hin)]; [by left|].
    right. by exists m, s', c'.
Qed.

Lemma conciliar_uuid m s c m' s' c' :
  conciliar metodo m s c = conciliar metodo m' s' c' →
  candidateInvoiceUuid c = candidateInvoiceUuid c'.
Proof. intros H. apply (f_equal cfdi_uuid) in H. simpl in H. by injection H. Qed.

Lemma conciliar_estado m s c : estado (conciliar metodo m s c) = CONCILIADO.
Proof. done. Qed.

(** Two matches of one run are on different invoices. *)
Lemma process_unique ms :
  ∀ claimed i j mi si ci mj sj cj,
    i < j →
    ms !! i = Some mi → estado mi = PENDIENTE →
    ms !! j = Some mj → estado mj = PENDIENTE →
    movements (process ms claimed) !! i = Some (conciliar metodo mi si ci) →
    movements (process ms claimed) !! j = Some (conciliar metodo mj sj cj) →
    candidateInvoiceUuid ci ≠ candidateInvoiceUuid cj.
Proof.
  induction ms as [|m0 ms IH]; intros claimed i j mi si ci mj sj cj Hij Hi Pi Hj Pj Ri Rj;
    [done|].
  destruct j as [|j]; [lia|]. simpl in Hj.
  destruct i as [|i]; simpl in Hi.
  - simplify_eq. simpl in Ri, Rj. rewrite Pi in Ri, Rj.
    destruct (matchMovement mi claimed) as [s c|sug] eqn:Hd; simpl in Ri, Rj.
    + assert (candidateInvoiceUuid c = candidateInvoiceUuid ci) as Hc.
      { apply (inj Some) in Ri. by apply conciliar_uuid in Ri. }
      rewrite <- Hc.
      destruct (process_lookup ms _ _ _ Rj)
        as [Hsame|(m & s' & c' & Hm & _ & Hconc & Hfree & _)].
      * rewrite Hj in Hsame. apply (inj Some) in Hsame. rewrite Hsame in Pj. done.
      * assert (candidateInvoiceUuid c' = candidateInvoiceUuid cj) as Hc'.
        { symmetry. by apply conciliar_uuid in Hconc. }
        rewrite <- Hc'. intros Heq.
        apply Forall_cons in Hfree as [Hfree _]. apply Hfree. unfold claim.
        apply elem_of_union_l, elem_of_list_to_set. rewrite <- Heq. by left.
    + apply (inj Some) in Ri. rewrite Ri in Pi. done.
  - simpl in Ri, Rj. destruct (estado m0); simpl in Ri, Rj.
    + destruct (matchMovement m0 claimed); simpl in Ri, Rj; eapply (IH _ i j); eauto; lia.
    + eapply (IH _ i j); eauto; lia.
    + eapply (IH _ i j); eauto; lia.
Qed.

End RunProps.

Section RunInvariantProps.
Import Motor.

Variable Index : Type.
Variable evaluate : Strategy → MovimientoBancario → Index → Config → list Candidate.
Variable metodo : Strategy → string.
Variable index : Index.
Variable config : Config.

Local Abbreviation matchMovement := (Motor.matchMovement Index evaluate index config).
Local Abbreviation process := (Motor.process Index evaluate metodo index config).

Lemma aceptados_free ms :
  ∀ claimed c, c ∈ aceptados (decisions (process ms claimed)) →
               Forall (λ u, u ∉ claimed) (claims c).
Proof.
  induction ms as [|m ms IH]; intros claimed c Hc; simpl in Hc.
  - by apply elem_of_nil in Hc.
  - destruct (estado m); simpl in Hc; [|by apply IH..].
    destruct (matchMovement m claimed) as [s c0|sug] eqn:Hd; simpl in Hc.
    + unfold aceptados in Hc. simpl in Hc. apply elem_of_cons in Hc as [->|Hc].
      * by eapply accept_available.
      * eapply Forall_impl; [by apply IH|]. unfold claim. set_solver.
    + by apply IH.
Qed.

Lemma aceptados_disjoint ms :
  ∀ claimed i j ci cj,
    i < j →
    aceptados (decisions (process ms claimed)) !! i = Some ci →
    aceptados (decisions (process ms claimed)) !! j = Some cj →
    ∀ u, u ∈ claims ci → u ∉ claims cj.
Proof.
  induction ms as [|m ms IH]; intros claimed i j ci cj Hij Hi Hj u Hu; simpl in Hi, Hj.
  - done.
  - destruct (estado m); simpl in Hi, Hj; [|by eapply (IH _ i j)..].
    destruct (matchMovement m claimed) as [s c0|sug] eqn:Hd; simpl in Hi, Hj;
      [|by eapply (IH _ i j)].
    unfold aceptados in Hi, Hj. simpl in Hi, Hj.
    destruct j as [|j]; [lia|]. simpl in Hj.
    destruct i as [|i]; simpl in Hi.
    + simplify_eq. apply list_elem_of_lookup_2 in Hj. apply aceptados_free in Hj.
      rewrite Forall_forall in Hj. intros Hu'. apply (Hj u Hu'). unfold claim.
      by apply elem_of_union_l, elem_of_list_to_set.
    + eapply (IH _ i j); eauto. lia.
Qed.

Lemma process_decided ms :
  ∀ claimed i m, ms !! i = Some m → estado m = PENDIENTE →
                 ∃ d, (id m, d) ∈ decisions (process ms claimed).
Proof.
  induction ms as [|m0 ms IH]; intros claimed i m Hi Hm; [done|].
  destruct i as [|i]; simpl in Hi.
  - simplify_eq. simpl. rewrite Hm.
    destruct (matchMovement m claimed); simpl; eexists; by left.
  - simpl. destruct (estado m0); simpl; [|by eapply IH..].
    destruct (matchMovement m0 claimed); simpl;
      (edestruct IH as [d Hd]; [done..|]); exists d; right; exact Hd.
Qed.

Lemma process_bien_formado ms claimed :
  Forall bien_formado ms → Forall bien_formado (movements (process ms claimed)).
Proof.
  intros Hall. apply Forall_lookup. intros i m' Hi.
  destruct (process_lookup _ _ _ _ _ _ _ _ _ Hi) as [Hin|(m & s & c & _ & _ & -> & _)].
  - by eapply Forall_lookup_1.
  - intros _. simpl. split; by eexists.
Qed.

Lemma reset_no_conciliado m : estado (reset m) ≠ CONCILIADO.
Proof. unfold reset. by destruct (estado m) eqn:E; simpl; rewrite ?E. Qed.

Lemma reset_bien_formado m : bien_formado (reset m).
Proof. intros H. by apply reset_no_conciliado in H. Qed.

Lemma reset_manual m : estado m = MANUAL → reset m = m.
Proof. intros H. unfold reset. by rewrite H. Qed.

Lemma reset_conciliado m :
  estado m = CONCILIADO →
  estado (reset m) = PENDIENTE ∧ cfdi_uuid (reset m) = None ∧
  nivel_confianza (reset m) = None ∧ metodo_conciliacion (reset m) = None ∧
  id (reset m) = id m.
Proof. intros H. unfold reset. by rewrite H. Qed.

Lemma process_conciliados_unicos ms claimed :
  Forall (λ m, estado m ≠ CONCILIADO) ms →
  ∀ i j a b, i ≠ j →
    movements (process ms claimed) !! i = Some a →
    movements (process ms claimed) !! j = Some b →
    estado a = CONCILIADO → estado b = CONCILIADO →
    ∃ u v, cfdi_uuid a = Some u ∧ cfdi_uuid b = Some v ∧ u ≠ v.
Proof.
  intros Hno i j a b Hij Ha Hb Ea Eb.
  destruct (process_lookup _ _ _ _ _ _ _ _ _ Ha)
    as [Hin|(ma & sa & ca & Hma & Pa & -> & _)].
  { exfalso. by apply (Forall_lookup_1 _ _ _ _ Hno Hin). }
  destruct (process_lookup _ _ _ _ _ _ _ _ _ Hb)
    as [Hin|(mb & sb & cb & Hmb & Pb & -> & _)].
  { exfalso. by apply (Forall_lookup_1 _ _ _ _ Hno Hin). }
  exists (candidateInvoiceUuid ca), (candidateInvoiceUuid cb).
  split; [done|]. split; [done|].
  destruct (decide (i < j)) as [Hlt|Hge].
  - by eapply (process_unique _ _ _ _ _ ms claimed i j).
  - intros Heq. symmetry in Heq. revert Heq.
    eapply (process_unique _ _ _ _ _ ms claimed j i); eauto. lia.
Qed.

End RunInvariantProps.

(** ** The engine: the service *)

Section ServicioProps.
Import Motor.

Variable Index : Type.
Variable evaluate : Strategy → MovimientoBancario → Index → Config → list Candidate.
Variable metodo : Strategy → string.

Local Abbreviation ejecutar := (Motor.ejecutar Index evaluate metodo).
Local Abbreviation process := (Motor.process Index evaluate metodo).

Lemma ejecutar_inv runs request index movs runs' r :
  ejecutar runs request index movs = Ejecutada runs' r →
  ∃ entrada,
    r = process index (config_de request) entrada ∅ ∧
    (forzar_reproceso request = Some true ∧ entrada = reset <$> movs ∨
     forzar_reproceso request ≠ Some true ∧ entrada = movs).
Proof.
  unfold Motor.ejecutar. intros H.
  destruct (bool_decide (scope_de request ∈ runs) && negb (default false (forzar_reproceso request)));
    [done|].
  injection H as _ <-.
  destruct (forzar_reproceso request) as [[|]|]; simpl; eexists; split; eauto.
Qed.

Lemma ejecutar_forzado runs request index movs :
  forzar_reproceso request = Some true →
  ejecutar runs request index movs =
  Ejecutada ({[scope_de request]} ∪ runs)
    (process index (config_de request) (reset <$> movs) ∅).
Proof.
  intros Hf. unfold Motor.ejecutar. rewrite Hf. simpl. by rewrite andb_false_r.
Qed.

Lemma reset_sin_conciliados (movs : list MovimientoBancario) :
  Forall (λ m, estado m ≠ CONCILIADO) (reset <$> movs).
Proof. apply Forall_fmap, Forall_true. intros m. apply reset_no_conciliado. Qed.


(** C4: with forceReprocess the run is the pipeline applied to the movements
    after the reset: every movement that was CONCILIADO is PENDIENTE there,
    without invoice, confidence or method, and is decided again by the
    pipeline; every MANUAL movement is found at its place in the result
    exactly as it was. *)
Theorem reproceso_reinicia runs request (index : Index) movs :
  forzar_reproceso request = Some true →
  ∃ runs' r,
    ejecutar runs request index movs = Ejecutada runs' r ∧
    r = process index (config_de request) (reset <$> movs) ∅ ∧
    Forall (λ m, estado m ≠ CONCILIADO) (reset <$> movs) ∧
    (∀ i m, movs !! i = Some m → estado m = CONCILIADO →
        ∃ m0, (reset <$> movs) !! i = Some m0 ∧
              estado m0 = PENDIENTE ∧ cfdi_uuid m0 = None ∧
              nivel_confianza m0 = None ∧ metodo_conciliacion m0 = None ∧
              ∃ d, (id m, d) ∈ decisions r) ∧
    (∀ i m, movs !! i = Some m → estado m = MANUAL → movements r !! i = Some m) ∧
    length (movements r) = length movs.
Proof.
  intros Hf. eexists _, _. split; [by apply ejecutar_forzado|].
  split; [done|]. split; [apply reset_sin_conciliados|]. split; [|split].
  - intros i m Hi Hm. exists (reset m).
    destruct (reset_conciliado m Hm) as (E1 & E2 & E3 & E4 & E5).
    split; [by rewrite list_lookup_fmap, Hi|]. repeat (split; [done|]).
    rewrite <- E5. eapply process_decided; [|done].
    by rewrite list_lookup_fmap, Hi.
  - intros i m Hi Hm. apply process_frame.
    + rewrite list_lookup_fmap, Hi. simpl. by rewrite reset_manual.
    + by rewrite Hm.
  - by rewrite process_length, length_fmap.
Qed.

(** Two candidates tie exactly when they agree on the four keys. *)
Lemma compare_candidates_Eq a b :
  compare_candidates a b = Eq ↔
  (confidence a == confidence b)%Q ∧
  (Qabs (amountDiff a) == Qabs (amountDiff b))%Q ∧
  Z.abs (daysDiff a) = Z.abs (daysDiff b) ∧
  issueDate a = issueDate b.
Proof.
  unfold compare_candidates, lex. split.
  - destruct (Qcompare_spec (confidence b) (confidence a)) as [E1|L1|G1]; [|done..].
    destruct (Qcompare_spec (Qabs (amountDiff a)) (Qabs (amountDiff b))) as [E2|L2|G2];
      [|done..].
    destruct (Z.compare_spec (Z.abs (daysDiff a)) (Z.abs (daysDiff b))) as [E3|L3|G3];
      [|done..].
    intros E4%Z.compare_eq_iff. split; [by symmetry|]. done.
  - intros (E1 & E2 & E3 & E4).
    symmetry in E1. apply Qeq_alt in E1. apply Qeq_alt in E2.
    apply Z.compare_eq_iff in E3, E4. by rewrite E1, E2, E3, E4.
Qed.

(** C6: a movement is PENDIENTE, CONCILIADO or MANUAL, three different
    states; every run keeps the invariant that a CONCILIADO movement has
    its invoice (cfdi_uuid) and its method (metodo_conciliacion), each
    field holding one value; the invariant asks nothing of the other
    movements, whose fields may be absent, as they are after a reset. *)
Theorem conciliado_con_factura_y_metodo :
  (∀ e : Estado, e = PENDIENTE ∨ e = CONCILIADO ∨ e = MANUAL) ∧
  (PENDIENTE ≠ CONCILIADO ∧ CONCILIADO ≠ MANUAL ∧ PENDIENTE ≠ MANUAL) ∧
  (∀ runs request (index : Index) movs runs' r,
      Forall bien_formado movs →
      ejecutar runs request index movs = Ejecutada runs' r →
      Forall (λ m, estado m = CONCILIADO →
                   (∃ uuid, cfdi_uuid m = Some uuid) ∧
                   (∃ met, metodo_conciliacion m = Some met))
             (movements r)) ∧
  (∀ m, estado m ≠ CONCILIADO → bien_formado m) ∧
  (∀ m, estado m = CONCILIADO →
      estado (reset m) = PENDIENTE ∧ cfdi_uuid (reset m) = None ∧
      metodo_conciliacion (reset m) = None ∧ bien_formado (reset m)).
Proof.
  split; [intros []; auto|]. split; [done|]. split; [|split].
  - intros runs request index movs runs' r Hwf Hrun.
    destruct (ejecutar_inv _ _ _ _ _ _ Hrun) as (entrada & -> & Hent).
    apply process_bien_formado.
    destruct Hent as [[_ ->]|[_ ->]]; [|done].
    apply Forall_fmap, Forall_true. intros m. apply reset_bien_formado.
  - intros m Hm E. done.
  - intros m Hm. destruct (reset_conciliado m Hm) as (E1 & E2 & E3 & E4 & E5).
    repeat (split; [done|]). apply reset_bien_formado.
Qed.

End ServicioProps.

(** ** The engine: two executions on the same inputs *)

Section OrdenProps.
Import Motor.

Lemma no_despues_trans : Transitive no_despues.
Proof.
  intros x y z Hxy Hyz. unfold no_despues in *.
  by destruct (compare_candidates_orden x.2 y.2 z.2 Hxy Hyz).
Qed.

Lemma best_sin_empates cs1 cs2 :
  cs1 ≡ₚ cs2 →
  (∀ c c', c ∈ cs1 → c' ∈ cs1 → compare_candidates c c' = Eq → c = c') →
  best cs1 = best cs2.
Proof.
  intros Hp Hsep.
  destruct (best cs1) as [b1|] eqn:E1, (best cs2) as [b2|] eqn:E2.
  - f_equal. apply Hsep.
    + by apply best_elem.
    + rewrite Hp. by apply best_elem.
    + by eapply best_perm.
  - apply best_None in E2. subst. apply Permutation_nil_r in Hp. by subst.
  - apply best_None in E1. subst. apply Permutation_nil_l in Hp. by subst.
  - done.
Qed.

(** Two rankings of the same entries, none of which tie, are the same
    list. *)
Lemma ordenadas_iguales (l1 : list (Strategy * Candidate)) :
  ∀ l2,
    StronglySorted no_despues l1 → StronglySorted no_despues l2 → l1 ≡ₚ l2 →
    (∀ x y, x ∈ l1 → y ∈ l1 → compare_candidates x.2 y.2 = Eq → x = y) →
    l1 = l2.
Proof.
  induction l1 as [|x l1 IH]; intros l2 H1 H2 Hp Hsep.
  - apply Permutation_nil_l in Hp. by subst.
  - destruct l2 as [|y l2]; [by apply Permutation_nil_r in Hp|].
    apply StronglySorted_inv in H1 as [H1 Hx], H2 as [H2 Hy].
    rewrite Forall_forall in Hx, Hy.
    assert (x = y) as <-.
    { assert (x ∈ y :: l2) as Hxin by (rewrite <- Hp; apply list_elem_of_here).
      assert (y ∈ x :: l1) as Hyin by (rewrite Hp; apply list_elem_of_here).
      apply elem_of_cons in Hxin as [E|Hxin]; [done|].
      apply elem_of_cons in Hyin as [E|Hyin]; [done|].
      apply Hsep; [apply list_elem_of_here|by apply list_elem_of_further|].
      pose proof (Hx y Hyin) as Hxy. pose proof (Hy x Hxin) as Hyx.
      unfold no_despues in Hxy, Hyx. rewrite compare_candidates_antisym in Hyx.
      by destruct (compare_candidates x.2 y.2). }
    f_equal. apply IH; [done|done|by apply Permutation_cons_inv in Hp|].
    intros a b Ha Hb. apply Hsep; by apply list_elem_of_further.
Qed.

Lemma rank_sin_empates l1 l2 :
  l1 ≡ₚ l2 →
  (∀ x y, x ∈ l1 → y ∈ l1 → compare_candidates x.2 y.2 = Eq → x = y) →
  rank l1 = rank l2.
Proof.
  intros Hp Hsep. apply ordenadas_iguales.
  - apply (@Sorted_StronglySorted _ no_despues no_despues_trans), rank_sorted.
  - apply (@Sorted_StronglySorted _ no_despues no_despues_trans), rank_sorted.
  - by rewrite !rank_perm.
  - intros x y Hx Hy. rewrite rank_perm in Hx, Hy. by apply Hsep.
Qed.

Variable Index : Type.
Variable evaluate1 evaluate2 :
  Strategy → MovimientoBancario → Index → Config → list Candidate.
Variable metodo : Strategy → string.
Variable index : Index.
Variable config : Config.

Hypothesis Hmismos : mismos_candidatos evaluate1 evaluate2 index config.
Hypothesis Hsin : sin_empates evaluate1 index config.

Lemma candidates_mismos s m claimed :
  candidates Index evaluate1 index config s m claimed ≡ₚ
  candidates Index evaluate2 index config s m claimed.
Proof. unfold candidates. by rewrite (Hmismos s m). Qed.

Lemma candidates_evaluate s m claimed c :
  c ∈ candidates Index evaluate1 index config s m claimed →
  c ∈ evaluate1 s m index config.
Proof. unfold candidates. by intros [_ ?]%list_elem_of_filter. Qed.

Lemma best_mismos s m claimed :
  best (candidates Index evaluate1 index config s m claimed) =
  best (candidates Index evaluate2 index config s m claimed).
Proof.
  apply best_sin_empates; [apply candidates_mismos|].
  intros c c' Hc Hc' Heq.
  by destruct (Hsin m s s c c' (candidates_evaluate _ _ _ _ Hc)
                 (candidates_evaluate _ _ _ _ Hc') Heq).
Qed.

Lemma accepts_mismos m claimed s :
  accepts Index evaluate1 index config m claimed s ↔
  accepts Index evaluate2 index config m claimed s.
Proof. unfold accepts. by rewrite best_mismos. Qed.

Lemma todos_mismos m claimed ss :
  todos Index evaluate1 index config m claimed ss ≡ₚ
  todos Index evaluate2 index config m claimed ss.
Proof.
  unfold todos. induction ss as [|s ss IH]; [done|].
  rewrite !bind_cons. by rewrite IH, candidates_mismos.
Qed.

Lemma todos_sin_empates m claimed ss x y :
  x ∈ todos Index evaluate1 index config m claimed ss →
  y ∈ todos Index evaluate1 index config m claimed ss →
  compare_candidates x.2 y.2 = Eq → x = y.
Proof.
  unfold todos. rewrite !list_elem_of_bind.
  intros (s & Hx & _) (s' & Hy & _) Heq.
  apply list_elem_of_fmap in Hx as (c & -> & Hc), Hy as (c' & -> & Hc').
  simpl in Heq.
  by destruct (Hsin m s s' c c' (candidates_evaluate _ _ _ _ Hc)
                 (candidates_evaluate _ _ _ _ Hc') Heq) as [-> ->].
Qed.

Lemma matchMovement_mismos m claimed :
  matchMovement Index evaluate1 index config m claimed =
  matchMovement Index evaluate2 index config m claimed.
Proof.
  destruct (matchMovement Index evaluate1 index config m claimed) as [s c|sug] eqn:E1;
    unfold matchMovement in *.
  - apply pipeline_accept_inv in E1 as (pre & post & Hss & Hpre & Hbest & Hthr).
    rewrite Hss. symmetry. apply pipeline_accept; [|by rewrite <- best_mismos|done].
    eapply Forall_impl; [exact Hpre|]. intros s' Hs' Ha. by apply Hs', accepts_mismos.
  - pose proof (pipeline_defer_inv _ _ _ _ _ _ _ _ _ E1) as Hall.
    rewrite (pipeline_defer _ _ _ _ _ _ _ [] Hall) in E1. injection E1 as <-.
    rewrite pipeline_defer.
    + rewrite !app_nil_l. f_equal. f_equal.
      apply (rank_sin_empates
               (todos Index evaluate1 index config m claimed strategies)
               (todos Index evaluate2 index config m claimed strategies)).
      * apply todos_mismos.
      * apply todos_sin_empates.
    + eapply Forall_impl; [exact Hall|]. intros s' Hs' Ha. by apply Hs', accepts_mismos.
Qed.

Lemma process_mismos ms :
  ∀ claimed,
    process Index evaluate1 metodo index config ms claimed =
    process Index evaluate2 metodo index config ms claimed.
Proof.
  induction ms as [|m ms IH]; intros claimed; simpl; [done|].
  rewrite matchMovement_mismos.
  destruct (estado m); [|by rewrite IH..].
  destruct (matchMovement Index evaluate2 index config m claimed); by rewrite IH.
Qed.

End OrdenProps.

Section DeterminismoProps.
Import Motor.


End DeterminismoProps.

(** ** The properties on the small run *)

Section EjemploProps.
Import Motor Ejemplo.


(** C4 on a forced run over a scope that has a run, with one movement
    matched by it and one assigned by hand. *)
Lemma reproceso_reinicia_witness :
  ∃ runs' r,
    ejecutar Tabla evaluate_tabla metodo_texto
      {[scope_de (solicitud (Some true))]} (solicitud (Some true)) tabla ya_conciliados
      = Ejecutada runs' r ∧
    r = process Tabla evaluate_tabla metodo_texto tabla
          (config_de (solicitud (Some true))) (reset <$> ya_conciliados) ∅ ∧
    Forall (λ m, estado m ≠ CONCILIADO) (reset <$> ya_conciliados) ∧
    (∀ i m, ya_conciliados !! i = Some m → estado m = CONCILIADO →
        ∃ m0, (reset <$> ya_conciliados) !! i = Some m0 ∧
              estado m0 = PENDIENTE ∧ cfdi_uuid m0 = None ∧
              nivel_confianza m0 = None ∧ metodo_conciliacion m0 = None ∧
              ∃ d, (id m, d) ∈ decisions r) ∧
    (∀ i m, ya_conciliados !! i = Some m → estado m = MANUAL →
        movements r !! i = Some m) ∧
    length (movements r) = length ya_conciliados.
Proof.
  apply (reproceso_reinicia Tabla evaluate_tabla metodo_texto
           {[scope_de (solicitud (Some true))]} (solicitud (Some true)) tabla
           ya_conciliados).
  reflexivity.
Defined.

(** C1 on a scope that already has a run: the request without the force
    flag is refused with status 409. *)
Lemma conflicto_y_reproceso_confirmado_witness :
  ejecutar Tabla evaluate_tabla metodo_texto
    {[scope_de (solicitud None)]} (solicitud None) tabla pendientes = Conflicto ∧
  respuesta_http
    (ejecutar Tabla evaluate_tabla metodo_texto
       {[scope_de (solicitud None)]} (solicitud None) tabla pendientes)
    = Throw (AxiosError (Some 409%Z)).
Proof.
  apply (proj1 conflicto_y_reproceso_confirmado Tabla evaluate_tabla metodo_texto
           {[scope_de (solicitud None)]} (solicitud None) tabla pendientes).
  - apply elem_of_singleton. reflexivity.
  - discriminate.
Defined.


Lemma tabla_inversa_mismos (t : Tabla) (config : Config) :
  mismos_candidatos evaluate_tabla evaluate_tabla_inversa t config.
Proof.
  intros s m. unfold evaluate_tabla, evaluate_tabla_inversa.
  by rewrite reverse_Permutation.
Qed.

Lemma tabla_sin_empates (config : Config) : sin_empates evaluate_tabla tabla config.
Proof.
  intros m s s' c c' Hc Hc' Heq. unfold evaluate_tabla, tabla in Hc, Hc'.
  destruct s, s'; try (by apply elem_of_nil in Hc); try (by apply elem_of_nil in Hc');
    destruct (id m =? 1)%Z, (id m =? 2)%Z, (id m =? 5)%Z;
    repeat match goal with
           | H : _ ∈ [] |- _ => by apply elem_of_nil in H
           | H : _ ∈ _ :: _ |- _ => apply elem_of_cons in H as [->|H]
           end;
    first [done | by vm_compute in Heq].
Qed.



(** C6 on the first run of the example. *)
Lemma conciliado_con_factura_y_metodo_witness :
  Forall (λ m, estado m = CONCILIADO →
               (∃ uuid, cfdi_uuid m = Some uuid) ∧
               (∃ met, metodo_conciliacion m = Some met))
         (movements (correr pendientes)).
Proof.
  apply (proj1 (proj2 (proj2
           (conciliado_con_factura_y_metodo Tabla evaluate_tabla metodo_texto)))
           ∅ (solicitud None) tabla pendientes
           ({[scope_de (solicitud None)]} ∪ ∅) (correr pendientes)).
  - unfold pendientes.
    repeat (apply Forall_cons_2; [intros E; discriminate E|]). apply Forall_nil_2.
  - reflexivity.
Defined.

(** C7 on the card after the user picked another month: the click sends
    one request, and it carries the initial tolerances. *)
Lemma tolerancias_por_defecto_witness :
  ∃ reintentos,
    Formulario.solicitudes (Formulario.eventos
      (Formulario.onClick_card "ABC123456789"
         {| Formulario.isExecuting := false;
            Formulario.mesAnio := {| MesAnio.mes := 5; MesAnio.anio := 2024 |};
            Formulario.tolerancias := Formulario.tolerancias_iniciales |}
         true [Ok JNull] [])) =
      {| rfc_empresa := "ABC123456789"; mes := 5; anio := 2024;
         tolerancia_monto := Some 1%Q; dias_tolerancia := Some 3%Z;
         forzar_reproceso := Some false |} :: reintentos ∧
    Forall (λ request, tolerancia_monto request = Some 1%Q ∧
                       dias_tolerancia request = Some 3%Z) reintentos.
Proof.
  apply (proj1 (proj2 (proj2 tolerancias_por_defecto))
           "ABC123456789"
           {| Formulario.isExecuting := false;
              Formulario.mesAnio := {| MesAnio.mes := 5; MesAnio.anio := 2024 |};
              Formulario.tolerancias := Formulario.tolerancias_iniciales |}
           true [Ok JNull] []).
  - discriminate.
  - reflexivity.
Defined.

End EjemploProps.

(** * Further properties of the front end *)

(** ** [obtenerArchivos] and the query of [obtenerMovimientos] *)

Section ApiMasProps.

Lemma length_de_arreglo xs :
  ApiConciliacion.length_de (JArr xs) = Ok (JNum (Z.of_nat (length xs))).
Proof. reflexivity. Qed.

(** X1: whenever obtenerArchivos resolves, its archivos field is an array
    and its total field is the number of elements of that array: the
    response data itself when it is an array, the empty array (and 0) for
    any other body, null included. *)
Theorem obtenerArchivos_arreglo
    (api_get : string → JsResult JSValue) (texto_de_numero : Z → string)
    (empresaId : Z) (data : JSValue) :
  api_get ("/api/v1/conciliacion/archivos/" +:+ texto_de_numero empresaId) = Ok data →
  ∃ xs,
    ApiConciliacion.obtenerArchivos api_get texto_de_numero empresaId =
      Ok {| ApiConciliacion.archivos := JArr xs;
            ApiConciliacion.total := JNum (Z.of_nat (length xs)) |} ∧
    (data = JArr xs ∨ (es_arreglo data = false ∧ xs = [])).
Proof.
  intros Hget. unfold ApiConciliacion.obtenerArchivos. rewrite Hget. simpl.
  destruct data; simpl; try (exists []; split; [reflexivity|right; done]).
  exists xs. split; [reflexivity|by left].
Qed.

Lemma obtenerArchivos_arreglo_witness :
  ∃ xs,
    ApiConciliacion.obtenerArchivos (λ _, Ok JNull) (λ _, "1") 1 =
      Ok {| ApiConciliacion.archivos := JArr xs;
            ApiConciliacion.total := JNum (Z.of_nat (length xs)) |} ∧
    (JNull = JArr xs ∨ (es_arreglo JNull = false ∧ xs = [])).
Proof.
  apply (obtenerArchivos_arreglo (λ _, Ok JNull) (λ _, "1") 1 JNull).
  reflexivity.
Defined.

Lemma agregar_params_elem (String_ : JSValue → string) (f : list (string * JSValue)) k s :
  (k, s) ∈ Api.agregar_params String_ f ↔
  ∃ v, (k, v) ∈ f ∧ v ≠ JUndefined ∧ v ≠ JNull ∧ s = String_ v.
Proof.
  induction f as [|[k0 v0] f IH]; simpl.
  - split; [by intros ?%elem_of_nil|]. by intros (v & ?%elem_of_nil & _).
  - assert (Hrest : (k, s) ∈ Api.agregar_params String_ f →
                    ∃ v, (k, v) ∈ (k0, v0) :: f ∧ v ≠ JUndefined ∧ v ≠ JNull ∧ s = String_ v).
    { intros (v & ? & ? & ? & ?)%IH. exists v. split; [by right|done]. }
    assert (Hkeep : v0 ≠ JUndefined → v0 ≠ JNull →
              ((k, s) ∈ (k0, String_ v0) :: Api.agregar_params String_ f ↔
               ∃ v, (k, v) ∈ (k0, v0) :: f ∧ v ≠ JUndefined ∧ v ≠ JNull ∧ s = String_ v)).
    { intros Hu Hn. rewrite elem_of_cons. split.
      - intros [E|Hin]; [|by apply Hrest]. simplify_eq. exists v0. split; [by left|done].
      - intros (v & Hin & ? & ? & ->). apply elem_of_cons in Hin as [E|Hin].
        + simplify_eq. by left.
        + right. apply IH. by exists v. }
    assert (Hdrop : v0 = JUndefined ∨ v0 = JNull →
              ((k, s) ∈ Api.agregar_params String_ f ↔
               ∃ v, (k, v) ∈ (k0, v0) :: f ∧ v ≠ JUndefined ∧ v ≠ JNull ∧ s = String_ v)).
    { intros Hv. split; [done|].
      intros (v & Hin & ? & ? & ->). apply elem_of_cons in Hin as [E|Hin].
      - simplify_eq. by destruct Hv.
      - apply IH. by exists v. }
    destruct v0; first [by apply Hdrop; auto | by apply Hkeep].
Qed.

Lemma agregar_params_nada (String_ : JSValue → string) (f : list (string * JSValue)) :
  Forall (λ kv, kv.2 = JUndefined ∨ kv.2 = JNull) f → Api.agregar_params String_ f = [].
Proof.
  induction f as [|[k v] f IH]; intros Hall; [done|].
  inversion Hall as [|? ? Hv Hrest]; subst. simpl in *.
  destruct Hv as [->| ->]; by apply IH.
Qed.

Lemma agregar_params_algo (String_ : JSValue → string) (f : list (string * JSValue)) :
  Exists (λ kv, kv.2 ≠ JUndefined ∧ kv.2 ≠ JNull) f → Api.agregar_params String_ f ≠ [].
Proof.
  rewrite Exists_exists. intros ([k v] & Hin & Hu & Hn) Hvacio. simpl in *.
  assert ((k, String_ v) ∈ Api.agregar_params String_ f) as Hp.
  { apply agregar_params_elem. by exists v. }
  rewrite Hvacio in Hp. by apply elem_of_nil in Hp.
Qed.

(** X2: the query of obtenerMovimientos carries exactly the filters whose
    value is neither undefined nor null, each as String(value): an empty
    string is sent like any other value.  As soon as one filter has such a
    value the URL requested is the path of the company followed by "?" and
    that query; without filters, or when every value is undefined or null,
    it is the path alone.  (URLSearchParams gives the empty text for no pair
    and for no pair only.) *)
Theorem consulta_de_filtros
    (String_ : JSValue → string) (texto_de_numero : Z → string)
    (params_toString : list (string * string) → string) :
  (∀ ps, params_toString ps = "" ↔ ps = []) →
  (∀ f k s,
      (k, s) ∈ Api.agregar_params String_ f ↔
      ∃ v, (k, v) ∈ f ∧ v ≠ JUndefined ∧ v ≠ JNull ∧ s = String_ v) ∧
  (∀ empresaId,
      Api.construir_url String_ texto_de_numero params_toString empresaId None =
      "/api/v1/conciliacion/movimientos/" +:+ texto_de_numero empresaId) ∧
  (∀ empresaId f,
      Forall (λ kv, kv.2 = JUndefined ∨ kv.2 = JNull) f →
      Api.construir_url String_ texto_de_numero params_toString empresaId (Some f) =
      "/api/v1/conciliacion/movimientos/" +:+ texto_de_numero empresaId) ∧
  (∀ empresaId f,
      Exists (λ kv, kv.2 ≠ JUndefined ∧ kv.2 ≠ JNull) f →
      Api.construir_url String_ texto_de_numero params_toString empresaId (Some f) =
      ("/api/v1/conciliacion/movimientos/" +:+ texto_de_numero empresaId) +:+ "?"
        +:+ params_toString (Api.agregar_params String_ f)).
Proof.
  intros Hvacio. split; [|split; [|split]].
  - intros. apply agregar_params_elem.
  - reflexivity.
  - intros empresaId f Hall. unfold Api.construir_url.
    rewrite agregar_params_nada by done.
    by rewrite (proj2 (Hvacio []) eq_refl).
  - intros empresaId f Hex. unfold Api.construir_url.
    apply (agregar_params_algo String_) in Hex.
    destruct (String.eqb_spec (params_toString (Api.agregar_params String_ f)) "")
      as [Hq|Hq].
    + by apply Hvacio in Hq.
    + reflexivity.
Qed.

(** X2 on a filter with an empty text and one with null: the first is sent,
    and the URL carries the query. *)
Lemma consulta_de_filtros_witness :
  (("estado", "") ∈ Api.agregar_params (λ v, match v with JStr s => s | _ => "?" end)
                      [("estado", JStr ""); ("tipo", JNull)]) ∧
  Api.construir_url (λ v, match v with JStr s => s | _ => "?" end) (λ _, "1")
    (λ ps, match ps with [] => "" | _ => "q" end) 1
    (Some [("estado", JStr ""); ("tipo", JNull)]) =
  "/api/v1/conciliacion/movimientos/1?q".
Proof.
  assert (∀ ps : list (string * string),
             match ps with [] => "" | _ => "q" end = "" ↔ ps = []) as Hvacio.
  { intros [|? ?]; split; intros E; try done; discriminate E. }
  pose proof (consulta_de_filtros
                (λ v, match v with JStr s => s | _ => "?" end) (λ _, "1")
                (λ ps, match ps with [] => "" | _ => "q" end) Hvacio) as (H1 & _ & _ & H4).
  split.
  - apply H1. exists (JStr ""). split; [apply list_elem_of_here|]. done.
  - apply (H4 1%Z [("estado", JStr ""); ("tipo", JNull)]).
    apply Exists_cons_hd. done.
Defined.

End ApiMasProps.

(** ** [chatsAPI.getAll] *)

Section ChatsProps.
Import ChatsApi.

Variable api_get : string → JsResult JSValue.
Variable String_ : JSValue → string.

Lemma leer_ok (v : JSValue) k : definido v → ∃ w, leer v k = Ok w.
Proof. intros [Hu Hn]. destruct v; simpl; eauto; congruence. Qed.

Lemma leer_throw (v : JSValue) k : ¬ definido v → leer v k = Throw TypeError.
Proof.
  intros Hv. destruct v; simpl; try reflexivity; exfalso; apply Hv; split; discriminate.
Qed.

Lemma definido_o_no (v : JSValue) : definido v ∨ ¬ definido v.
Proof.
  destruct v; first [left; split; discriminate | right; intros [Hu Hn]; congruence].
Qed.

Lemma todos_definidos_o_no (xs : list JSValue) :
  Forall definido xs ∨ ¬ Forall definido xs.
Proof.
  induction xs as [|x xs [IH|IH]].
  - left. constructor.
  - destruct (definido_o_no x) as [Hx|Hx].
    + left. by constructor.
    + right. intros H. inversion H. done.
  - right. intros H. inversion H. done.
Qed.

Lemma convertir_ok conv :
  definido conv → ∃ c, convertir String_ conv = Ok c ∧ truthy (titulo c) = true.
Proof.
  intros Hd. unfold convertir.
  destruct (leer_ok conv "id" Hd) as [i ->].
  destruct (leer_ok conv "titulo" Hd) as [t ->].
  destruct (leer_ok conv "created_at" Hd) as [c ->].
  destruct (leer_ok conv "updated_at" Hd) as [u ->]. simpl.
  destruct (truthy t) eqn:Ht; simpl; eexists; (split; [reflexivity|]); simpl; done.
Qed.

Lemma convertir_throw conv : ¬ definido conv → convertir String_ conv = Throw TypeError.
Proof.
  intros Hd. unfold convertir. rewrite (leer_throw conv "id") by done. reflexivity.
Qed.

Lemma map_js_ok xs :
  Forall definido xs →
  ∃ cs, map_js (convertir String_) xs = Ok cs ∧ length cs = length xs ∧
        Forall (λ c, truthy (titulo c) = true) cs.
Proof.
  induction xs as [|x xs IH]; intros Hall; simpl.
  - exists []. done.
  - inversion Hall as [|? ? Hx Hxs]; subst.
    destruct (convertir_ok x Hx) as (c & -> & Hc).
    destruct (IH Hxs) as (cs & -> & Hlen & Hcs). simpl.
    exists (c :: cs). split; [done|]. split; [simpl; by rewrite Hlen|by constructor].
Qed.

Lemma map_js_throw xs :
  ¬ Forall definido xs → ∃ e, map_js (convertir String_) xs = Throw e.
Proof.
  induction xs as [|x xs IH]; intros Hno; simpl.
  - exfalso. apply Hno. constructor.
  - destruct (definido_o_no x) as [Hx|Hx]; [|rewrite convertir_throw by done; by eexists].
    destruct (convertir_ok x Hx) as (c & -> & _). simpl.
    destruct IH as [e ->]; [|by eexists].
    intros Hxs. apply Hno. by constructor.
Qed.

(** X3: chatsAPI.getAll never rejects, whatever the request does: it
    returns one chat per conversation, each with a truthy title, when the
    body is an array none of whose elements is null or undefined, and the
    empty list in every other case (failed request, body that is not an
    array, array with a null element). *)
Theorem getAll_nunca_rechaza (rfc : string) :
  ∃ chats,
    getAll api_get String_ rfc = Ok chats ∧
    Forall (λ c, truthy (titulo c) = true) chats ∧
    ((∃ xs, api_get ("/api/v1/conversacion/conversaciones/" +:+ rfc) = Ok (JArr xs) ∧
            Forall (λ v, v ≠ JUndefined ∧ v ≠ JNull) xs ∧
            length chats = length xs) ∨
     (chats = [] ∧
      ∀ xs, api_get ("/api/v1/conversacion/conversaciones/" +:+ rfc) = Ok (JArr xs) →
            ¬ Forall (λ v, v ≠ JUndefined ∧ v ≠ JNull) xs)).
Proof.
  unfold getAll.
  destruct (api_get ("/api/v1/conversacion/conversaciones/" +:+ rfc)) as [data|e] eqn:Hget;
    simpl.
  - destruct data;
      try (exists []; split; [reflexivity|]; split; [constructor|]; right;
           split; [done|]; intros ? ?; discriminate).
    destruct (todos_definidos_o_no xs) as [Hall|Hno].
    + destruct (map_js_ok xs Hall) as (cs & -> & Hlen & Hcs). simpl.
      exists cs. split; [done|]. split; [done|]. left. by exists xs.
    + destruct (map_js_throw xs Hno) as [e ->]. simpl.
      exists []. split; [done|]. split; [constructor|]. right. split; [done|].
      intros xs' E. by simplify_eq.
  - exists []. split; [done|]. split; [constructor|]. right. split; [done|].
    intros xs' E. discriminate.
Qed.

End ChatsProps.

(** ** The filter form, further *)

Section FiltrosMasProps.
Import Filtros.

Lemma filtrosLimpios_vacios : filtrosLimpios filtrosVacios = ∅.
Proof.
  apply map_empty. intros k. apply eq_None_not_Some. intros [v Hv].
  apply filtrosLimpios_lookup in Hv as [Hv Hne]. unfold filtrosVacios in Hv.
  apply elem_of_list_to_map_2 in Hv.
  repeat (apply elem_of_cons in Hv as [Hv|Hv]; [by simplify_eq|]).
  by apply elem_of_nil in Hv.
Qed.

Lemma hayFiltrosAplicados_spec (filtros : Registro) :
  hayFiltrosAplicados filtros = true ↔ filtrosLimpios filtros ≠ ∅.
Proof.
  unfold hayFiltrosAplicados. rewrite bool_decide_eq_true, Exists_exists. split.
  - intros ([k v] & Hin & Hne) Hvacio. apply elem_of_map_to_list in Hin.
    assert (filtrosLimpios filtros !! k = Some v) as Hk by by apply filtrosLimpios_lookup.
    rewrite Hvacio in Hk. by rewrite lookup_empty in Hk.
  - intros Hne. apply map_choose in Hne as (k & v & Hkv).
    apply filtrosLimpios_lookup in Hkv as [Hkv Hv].
    exists (k, v). split; [by apply elem_of_map_to_list|done].
Qed.

(** X4: after every action on the filter form, the map handed to
    onFiltrosChange is the component state without its empty entries, and
    the "Activos" badge (hayFiltrosAplicados) is shown exactly when that
    map is not empty: what the parent filters by and what the form displays
    never drift apart, the "Limpiar" button included. *)
Theorem filtros_sincronizados (filtros : Registro) (a : Accion) :
  emitido (manejar filtros a) = filtrosLimpios (nuevo_estado (manejar filtros a)) ∧
  (hayFiltrosAplicados (nuevo_estado (manejar filtros a)) = true ↔
   emitido (manejar filtros a) ≠ ∅).
Proof.
  assert (Hsync : emitido (manejar filtros a)
                  = filtrosLimpios (nuevo_estado (manejar filtros a))).
  { destruct a; simpl; [done|]. by rewrite filtrosLimpios_vacios. }
  split; [done|]. rewrite Hsync. apply hayFiltrosAplicados_spec.
Qed.

(** X5: an input change touches one entry of what is emitted: the changed
    field is emitted with its new value, or dropped when the value is the
    empty string, and every other field is emitted as it was.  Typing twice
    in the same field is the same as typing the last value once. *)
Theorem cambio_de_un_campo (filtros : Registro) (campo valor : string) :
  (∀ k, emitido (handleInputChange filtros campo valor) !! k =
        if decide (k = campo)
        then (if decide (valor = "") then None else Some valor)
        else filtrosLimpios filtros !! k) ∧
  (∀ otro, handleInputChange (nuevo_estado (handleInputChange filtros campo otro))
             campo valor
           = handleInputChange filtros campo valor).
Proof.
  split.
  - intros k. apply option_eq. intros v. simpl. rewrite filtrosLimpios_lookup.
    destruct (decide (k = campo)) as [->|Hk].
    + rewrite lookup_insert_eq. destruct (decide (valor = "")) as [->|Hv].
      * split; [by intros [[= <-] ?]|done].
      * split; [by intros [[= <-] ?]|]. intros [= <-]. done.
    + rewrite lookup_insert_ne by done. by rewrite filtrosLimpios_lookup.
  - intros otro. unfold handleInputChange. simpl. by rewrite insert_insert_eq.
Qed.

End FiltrosMasProps.

(** ** The forms, further: what a run sends and how it ends *)

Section CorridasProps.
Import Formulario Conteo.

Lemma terminada_luego_finally antes interna :
  terminada (luego_finally antes interna) = terminada interna.
Proof. unfold luego_finally. by destruct (terminada interna). Qed.

Lemma ultimo_luego_finally antes interna :
  ultimo_isExecuting (eventos interna) = Some (negb (terminada interna)) →
  ultimo_isExecuting (eventos (luego_finally antes interna)) =
  Some (negb (terminada interna)).
Proof.
  intros Hi. unfold luego_finally, ultimo_isExecuting in *.
  destruct (terminada interna); simpl in *.
  - rewrite !omap_app. simpl. by rewrite app_assoc, last_snoc.
  - rewrite omap_app, last_app. by rewrite Hi.
Qed.

(** X6: in a run of either form the first request is sent without the force
    flag and each "yes" to the dialog sends exactly one more request, with
    the flag; all of them are for the same company, period and tolerances,
    namely the ones the form held when the button was pressed. *)
Theorem reintentos_forzados rfc st onSuccess servidor usuario :
  rfc ≠ "" →
  solicitudes (eventos (onClick_card rfc st onSuccess servidor usuario)) =
    construir_request rfc st false ::
    replicate (cuenta es_si (eventos (onClick_card rfc st onSuccess servidor usuario)))
              (construir_request rfc st true) ∧
  solicitudes (eventos (handleExecute rfc st servidor usuario)) =
    construir_request rfc st false ::
    replicate (cuenta es_si (eventos (handleExecute rfc st servidor usuario)))
              (construir_request rfc st true).
Proof.
  intros Hrfc. split.
  - by apply solicitudes_de_card.
  - by apply solicitudes_de_pagina.
Qed.

Lemma desenlaces_luego_finally antes interna :
  desenlaces (eventos (luego_finally antes interna)) =
  desenlaces antes + desenlaces (eventos interna).
Proof. unfold desenlaces. rewrite !cuenta_luego_finally by done. lia. Qed.

Lemma fin_card rfc st servidor :
  rfc ≠ "" →
  ∀ usuario forzar,
    desenlaces (eventos (executeInternal_card rfc st true servidor usuario forzar)) =
      (if terminada (executeInternal_card rfc st true servidor usuario forzar)
       then 1 else 0) ∧
    ultimo_isExecuting (eventos (executeInternal_card rfc st true servidor usuario forzar)) =
      Some (negb (terminada (executeInternal_card rfc st true servidor usuario forzar))).
Proof.
  intros Hrfc. apply String.eqb_neq in Hrfc.
  induction servidor as [|resp servidor IH]; intros usuario forzar; simpl; rewrite Hrfc.
  - done.
  - destruct resp as [v|error]; simpl; [done|].
    destruct (decide (status_de error = Some 409%Z)); simpl; [|done].
    destruct usuario as [|confirmed usuario]; simpl; [done|].
    destruct confirmed; simpl; [|done].
    destruct (IH usuario true) as [Hd Hu].
    rewrite desenlaces_luego_finally, terminada_luego_finally, Hd.
    split; [done|]. by apply ultimo_luego_finally.
Qed.

Lemma fin_pagina rfc st servidor :
  rfc ≠ "" →
  ∀ usuario forzar,
    desenlaces (eventos (executeInternal_pagina rfc st servidor usuario forzar)) =
      (if terminada (executeInternal_pagina rfc st servidor usuario forzar)
       then 1 else 0) ∧
    ultimo_isExecuting (eventos (executeInternal_pagina rfc st servidor usuario forzar)) =
      Some (negb (terminada (executeInternal_pagina rfc st servidor usuario forzar))).
Proof.
  intros Hrfc. apply String.eqb_neq in Hrfc.
  induction servidor as [|resp servidor IH]; intros usuario forzar; simpl; rewrite Hrfc.
  - done.
  - destruct resp as [v|error]; simpl; [done|].
    destruct (decide (status_de error = Some 409%Z)); simpl; [|done].
    destruct usuario as [|confirmed usuario]; simpl; [done|].
    destruct confirmed; simpl; [|done].
    destruct (IH usuario true) as [Hd Hu].
    rewrite desenlaces_luego_finally, terminada_luego_finally, Hd.
    split; [done|]. by apply ultimo_luego_finally.
Qed.

(** X7: a run of either form that has settled ended in exactly one of three
    ways, the success callback, the error alert or a "no" to the dialog,
    and left isExecuting false; a run still waiting for a response or for
    the dialog has shown none of them and has isExecuting true.  (For the
    card, with the onSuccess callback given.) *)
Theorem un_solo_desenlace rfc st servidor usuario :
  rfc ≠ "" →
  (desenlaces (eventos (onClick_card rfc st true servidor usuario)) =
     (if terminada (onClick_card rfc st true servidor usuario) then 1 else 0) ∧
   ultimo_isExecuting (eventos (onClick_card rfc st true servidor usuario)) =
     Some (negb (terminada (onClick_card rfc st true servidor usuario)))) ∧
  (desenlaces (eventos (handleExecute rfc st servidor usuario)) =
     (if terminada (handleExecute rfc st servidor usuario) then 1 else 0) ∧
   ultimo_isExecuting (eventos (handleExecute rfc st servidor usuario)) =
     Some (negb (terminada (handleExecute rfc st servidor usuario)))).
Proof.
  intros Hrfc. split.
  - by apply fin_card.
  - by apply fin_pagina.
Qed.

(** X6 and X7 on the card: a conflict, a "yes", then a second conflict and a
    "no". *)
Lemma reintentos_forzados_witness :
  solicitudes (eventos (onClick_card "ABC123456789" (estado_inicial 0 2024) true
     [Throw (AxiosError (Some 409%Z)); Throw (AxiosError (Some 409%Z))] [true; false])) =
    [construir_request "ABC123456789" (estado_inicial 0 2024) false;
     construir_request "ABC123456789" (estado_inicial 0 2024) true].
Proof.
  apply (proj1 (reintentos_forzados "ABC123456789" (estado_inicial 0 2024) true
     [Throw (AxiosError (Some 409%Z)); Throw (AxiosError (Some 409%Z))] [true; false]
     ltac:(discriminate))).
Defined.

Lemma un_solo_desenlace_witness :
  desenlaces (eventos (onClick_card "ABC123456789" (estado_inicial 0 2024) true
     [Throw (AxiosError (Some 409%Z)); Throw (AxiosError (Some 409%Z))] [true; false])) = 1 ∧
  ultimo_isExecuting (eventos (onClick_card "ABC123456789" (estado_inicial 0 2024) true
     [Throw (AxiosError (Some 409%Z)); Throw (AxiosError (Some 409%Z))] [true; false]))
  = Some false.
Proof.
  apply (proj1 (un_solo_desenlace "ABC123456789" (estado_inicial 0 2024)
     [Throw (AxiosError (Some 409%Z)); Throw (AxiosError (Some 409%Z))] [true; false]
     ltac:(discriminate))).
Defined.

End CorridasProps.

(** ** The company selector and the sidebar *)

Section HeaderProps.
Import Header.

Lemma fetchEmpresas_conserva respuesta st :
  rfcEmpresa st ≠ "" → rfcEmpresa (fetchEmpresas respuesta st) = rfcEmpresa st.
Proof.
  intros Hrfc. apply String.eqb_neq in Hrfc. unfold fetchEmpresas. simpl.
  destruct (getEmpresasContribuyentes respuesta); [done|]. by rewrite Hrfc.
Qed.

Lemma fetchEmpresas_cambia respuesta st :
  rfcEmpresa (fetchEmpresas respuesta st) ≠ rfcEmpresa st →
  rfcEmpresa st = "" ∧ rfcEmpresa (fetchEmpresas respuesta st) ≠ "".
Proof.
  intros Hne. destruct (String.eqb_spec (rfcEmpresa st) "") as [E|E].
  - split; [done|]. by rewrite E in Hne.
  - exfalso. apply Hne. by apply fetchEmpresas_conserva.
Qed.

Lemma efecto_cons respuesta resto st :
  efecto (respuesta :: resto) st =
  if String.eqb (rfcEmpresa (fetchEmpresas respuesta st)) (rfcEmpresa st)
  then (fetchEmpresas respuesta st, 1)
  else ((efecto resto (fetchEmpresas respuesta st)).1,
        S (efecto resto (fetchEmpresas respuesta st)).2).
Proof.
  simpl. destruct (String.eqb _ _); [done|].
  by destruct (efecto resto (fetchEmpresas respuesta st)).
Qed.

(** X8: the effect that loads the companies makes at most two requests per
    change of the selection and then rests; it never replaces a company
    that is already selected (one request, the selection kept), and every
    request it made ends the loading state. *)
Theorem efecto_se_detiene servidor st :
  ((efecto servidor st).2 ≤ 2)%nat ∧
  (rfcEmpresa st ≠ "" →
     ((efecto servidor st).2 ≤ 1)%nat ∧
     rfcEmpresa (efecto servidor st).1 = rfcEmpresa st) ∧
  (servidor ≠ [] → loading (efecto servidor st).1 = false).
Proof.
  assert (Hsel : ∀ servidor st, rfcEmpresa st ≠ "" →
            ((efecto servidor st).2 ≤ 1)%nat ∧
            rfcEmpresa (efecto servidor st).1 = rfcEmpresa st).
  { intros [|r resto] st0 Hrfc; [split; [simpl; lia|done]|].
    rewrite efecto_cons, fetchEmpresas_conserva by done. rewrite String.eqb_refl. simpl.
    split; [lia|]. by apply fetchEmpresas_conserva. }
  assert (Hload : ∀ servidor st, servidor ≠ [] → loading (efecto servidor st).1 = false).
  { induction servidor0 as [|r resto IH]; intros st0 Hne; [done|].
    rewrite efecto_cons.
    destruct (String.eqb_spec (rfcEmpresa (fetchEmpresas r st0)) (rfcEmpresa st0))
      as [E|E]; [done|].
    destruct resto as [|r' resto]; [done|].
    exact (IH (fetchEmpresas r st0) ltac:(done)). }
  split; [|split; [apply Hsel|apply Hload]].
  destruct servidor as [|r resto]; [simpl; lia|]. rewrite efecto_cons.
  destruct (String.eqb_spec (rfcEmpresa (fetchEmpresas r st)) (rfcEmpresa st)) as [E|E];
    simpl; [lia|].
  apply fetchEmpresas_cambia in E as [_ E].
  destruct (Hsel resto (fetchEmpresas r st) E) as [Hn _]. lia.
Qed.

Lemma efecto_se_detiene_witness :
  ((efecto [Ok [{| id := 1; rfc := "ABC123456789"; razon_social := "Uno" |}]; Throw TypeError]
      (handleRfcChange "XYZ987654321" estado_inicial)).2 ≤ 1)%nat ∧
  rfcEmpresa
    (efecto [Ok [{| id := 1; rfc := "ABC123456789"; razon_social := "Uno" |}]; Throw TypeError]
       (handleRfcChange "XYZ987654321" estado_inicial)).1 = "XYZ987654321".
Proof.
  apply (proj1 (proj2 (efecto_se_detiene
           [Ok [{| id := 1; rfc := "ABC123456789"; razon_social := "Uno" |}]; Throw TypeError]
           (handleRfcChange "XYZ987654321" estado_inicial)))).
  discriminate.
Defined.

(** X9: the text of the selector, [empresaActual?.rfc || rfcEmpresa], is
    always the selected RFC itself, whether or not a company of the list
    carries it. *)
Theorem rfc_mostrado_es_el_seleccionado (st : Estado) :
  rfc_mostrado st = rfcEmpresa st ∧
  (∀ emp, empresaActual st = Some emp → rfc emp = rfcEmpresa st ∧ emp ∈ empresas st).
Proof.
  assert (Hfind : ∀ emp, empresaActual st = Some emp →
                         rfc emp = rfcEmpresa st ∧ emp ∈ empresas st).
  { unfold empresaActual. generalize (empresas st). intros l.
    induction l as [|e l IH]; intros emp H; simpl in H; [done|].
    destruct (String.eqb_spec (rfc e) (rfcEmpresa st)) as [E|E].
    - simplify_eq. split; [done|by left].
    - destruct (IH _ H). split; [done|by right]. }
  split; [|done]. unfold rfc_mostrado.
  destruct (empresaActual st) as [emp|] eqn:Hemp; [|done].
  destruct (Hfind emp eq_refl) as [E _]. rewrite E. by destruct (String.eqb _ _).
Qed.

End HeaderProps.

Section SidebarProps.
Import Sidebar.

Lemma activos_de (pathname : string) :
  activos pathname =
  (if String.prefix "/conciliacion" pathname then ["/conciliacion"] else []) ++
  (if String.eqb pathname "/conciliacion/reportes" then ["/conciliacion/reportes"] else []) ++
  (if String.eqb pathname "/conciliacion/docs" then ["/conciliacion/docs"] else []) ++
  (if String.eqb pathname "/subir-estado" then ["/subir-estado"] else []).
Proof.
  unfold activos, navigation, isActive.
  rewrite !filter_cons, filter_nil. simpl.
  destruct (String.eqb_spec pathname "/conciliacion") as [->|E1]; simpl.
  - reflexivity.
  - destruct (String.prefix "/conciliacion" pathname); simpl;
      destruct (String.eqb pathname "/conciliacion/reportes"); simpl;
      destruct (String.eqb pathname "/conciliacion/docs"); simpl;
      destruct (String.eqb pathname "/subir-estado"); simpl; reflexivity.
Qed.

(** X10: the first entry of the sidebar is highlighted on every path that
    starts with /conciliacion; each other entry only on its own path.  So
    under /conciliacion/reportes and /conciliacion/docs two entries are
    highlighted at once, and never more than two on any path. *)
Theorem entradas_activas (pathname : string) :
  ("/conciliacion" ∈ activos pathname ↔ String.prefix "/conciliacion" pathname = true) ∧
  (∀ href, href ≠ "/conciliacion" → (href ∈ activos pathname ↔
                                     href ∈ navigation ∧ pathname = href)) ∧
  (length (activos pathname) ≤ 2)%nat ∧
  (length (activos pathname) = 2 ↔
   pathname = "/conciliacion/reportes" ∨ pathname = "/conciliacion/docs").
Proof.
  split; [|split; [|split]].
  - unfold activos. rewrite list_elem_of_filter. unfold isActive.
    split.
    + intros [H _]. apply orb_true_iff in H as [H|H].
      * apply String.eqb_eq in H as ->. reflexivity.
      * by apply andb_true_iff in H as [_ H].
    + intros H. split; [|by left]. rewrite H. simpl. by rewrite orb_true_r.
  - intros href Hh. unfold activos. rewrite list_elem_of_filter. unfold isActive.
    apply String.eqb_neq in Hh. rewrite Hh. simpl. rewrite orb_false_r.
    rewrite String.eqb_eq. tauto.
  - rewrite activos_de.
    destruct (String.eqb_spec pathname "/conciliacion/reportes") as [->|E2];
      [simpl; lia|].
    destruct (String.eqb_spec pathname "/conciliacion/docs") as [->|E3]; [simpl; lia|].
    destruct (String.eqb_spec pathname "/subir-estado") as [->|E4]; [simpl; lia|].
    destruct (String.prefix "/conciliacion" pathname); simpl; lia.
  - rewrite activos_de.
    destruct (String.eqb_spec pathname "/conciliacion/reportes") as [->|E2].
    { simpl. split; [by left|done]. }
    destruct (String.eqb_spec pathname "/conciliacion/docs") as [->|E3].
    { simpl. split; [by right|done]. }
    destruct (String.eqb_spec pathname "/subir-estado") as [->|E4].
    { simpl. split; [done|]. intros [?|?]; done. }
    destruct (String.prefix "/conciliacion" pathname); simpl;
      (split; [done|]; intros [?|?]; done).
Qed.

End SidebarProps.

(** ** Loading the page *)

Section PaginaProps.
Import Pagina.

Variable api_get : string → JsResult JSValue.
Variable String_ : JSValue → string.
Variable texto_de_numero : Z → string.
Variable params_toString : list (string * string) → string.

Local Abbreviation cargar := (cargarDatos api_get String_ texto_de_numero params_toString).
Local Abbreviation las_estadisticas :=
  (ApiConciliacion.obtenerEstadisticas api_get texto_de_numero).
Local Abbreviation los_movimientos :=
  (Api.obtenerMovimientos api_get String_ texto_de_numero params_toString).
Local Abbreviation los_archivos :=
  (ApiConciliacion.obtenerArchivos api_get texto_de_numero).

Lemma o_bien_o_bien v w : o_bien (o_bien v w) w = o_bien v w.
Proof.
  unfold o_bien. destruct (truthy v) eqn:Hv; [by rewrite Hv|].
  by destruct (truthy w).
Qed.

Lemma obtenerMovimientos_o_bien empresaId filtros m :
  los_movimientos empresaId filtros = Ok m →
  o_bien (Api.movimientos m) (JArr []) = Api.movimientos m.
Proof.
  unfold Api.obtenerMovimientos, Api.mapear. intros H.
  destruct (api_get _) as [data|]; simpl in H; [|done].
  destruct (leer data "items") as [items|]; simpl in H; [|done].
  destruct (leer data "total") as [tot|]; simpl in H; [|done].
  injection H as <-. simpl. apply o_bien_o_bien.
Qed.

Lemma obtenerArchivos_o_bien empresaId a :
  los_archivos empresaId = Ok a →
  o_bien (ApiConciliacion.archivos a) (JArr []) = ApiConciliacion.archivos a ∧
  es_arreglo (ApiConciliacion.archivos a) = true.
Proof.
  unfold ApiConciliacion.obtenerArchivos. intros H.
  destruct (api_get _) as [data|]; simpl in H; [|done].
  destruct data; simpl in H; injection H as <-; done.
Qed.

(** X11: loading the page is all or nothing.  With a company selected,
    cargarDatos always ends with loading false, and either the three
    requests all succeeded and the statistics, movements and files are
    exactly what the API functions returned (the files always an array),
    or one of them failed, a body null for the movements included, and the
    three cells keep the values they had.  Without a company nothing
    changes. *)
Theorem cargarDatos_todo_o_nada (rfcEmpresa : string)
    (filtrosActivos : list (string * string)) (st : Estado) :
  (rfcEmpresa = "" → cargar rfcEmpresa filtrosActivos st = st) ∧
  (rfcEmpresa ≠ "" →
   loading (cargar rfcEmpresa filtrosActivos st) = false ∧
   ((∃ s m a,
        las_estadisticas (empresaId_de rfcEmpresa) = Ok s ∧
        los_movimientos (empresaId_de rfcEmpresa) (Some (filtros_de filtrosActivos)) = Ok m ∧
        los_archivos (empresaId_de rfcEmpresa) = Ok a ∧
        estadisticas (cargar rfcEmpresa filtrosActivos st) = s ∧
        movimientos (cargar rfcEmpresa filtrosActivos st) = Api.movimientos m ∧
        archivos (cargar rfcEmpresa filtrosActivos st) = ApiConciliacion.archivos a ∧
        es_arreglo (archivos (cargar rfcEmpresa filtrosActivos st)) = true) ∨
    ((∃ e, las_estadisticas (empresaId_de rfcEmpresa) = Throw e ∨
           los_movimientos (empresaId_de rfcEmpresa) (Some (filtros_de filtrosActivos))
             = Throw e ∨
           los_archivos (empresaId_de rfcEmpresa) = Throw e) ∧
     estadisticas (cargar rfcEmpresa filtrosActivos st) = estadisticas st ∧
     movimientos (cargar rfcEmpresa filtrosActivos st) = movimientos st ∧
     archivos (cargar rfcEmpresa filtrosActivos st) = archivos st))).
Proof.
  split.
  - intros ->. reflexivity.
  - intros Hrfc. apply String.eqb_neq in Hrfc. unfold cargarDatos. rewrite Hrfc.
    destruct (las_estadisticas (empresaId_de rfcEmpresa)) as [s|e1] eqn:Hs.
    + destruct (los_movimientos (empresaId_de rfcEmpresa) (Some (filtros_de filtrosActivos)))
        as [m|e2] eqn:Hm.
      * destruct (los_archivos (empresaId_de rfcEmpresa)) as [a|e3] eqn:Ha.
        -- split; [done|]. left. exists s, m, a. simpl.
           destruct (obtenerArchivos_o_bien _ _ Ha) as [Ea Harr].
           rewrite (obtenerMovimientos_o_bien _ _ _ Hm), Ea. done.
        -- split; [done|]. right. split; [|done]. exists e3. auto.
      * split; [done|]. right. split; [|done]. exists e2. auto.
    + split; [done|]. right. split; [|done]. exists e1. auto.
Qed.

Lemma asignar_claves k v obj :
  NoDup obj.*1 → NoDup (asignar k v obj).*1 ∧
  ∀ k', k' ∈ (asignar k v obj).*1 ↔ k' = k ∨ k' ∈ obj.*1.
Proof.
  induction obj as [|[k0 v0] obj IH]; intros Hnd; simpl.
  - split; [apply NoDup_singleton|]. intros k'. rewrite list_elem_of_singleton.
    split; [auto|]. intros [?|?%elem_of_nil]; done.
  - apply NoDup_cons in Hnd as [Hk0 Hnd]. simpl in *.
    destruct (decide (k0 = k)) as [->|Hne]; simpl.
    + split; [by apply NoDup_cons|]. intros k'. rewrite elem_of_cons. tauto.
    + destruct (IH Hnd) as [IH1 IH2]. split.
      * apply NoDup_cons. split; [|done]. rewrite IH2. intros [?|?]; done.
      * intros k'. rewrite !elem_of_cons, IH2. tauto.
Qed.

Lemma asignar_entradas k v obj :
  NoDup obj.*1 →
  ∀ k' v', (k', v') ∈ asignar k v obj ↔
           (k' = k ∧ v' = v) ∨ (k' ≠ k ∧ (k', v') ∈ obj).
Proof.
  induction obj as [|[k0 v0] obj IH]; intros Hnd k' v'; simpl.
  - rewrite list_elem_of_singleton, elem_of_nil. split.
    + intros E. simplify_eq. by left.
    + intros [[-> ->]|[_ []]]. done.
  - apply NoDup_cons in Hnd as [Hk0 Hnd]. simpl in *.
    destruct (decide (k0 = k)) as [->|Hne].
    + rewrite !elem_of_cons. split.
      * intros [E|Hin]; [simplify_eq; by left|].
        right. split; [|by right]. intros ->. apply Hk0.
        apply list_elem_of_fmap. by exists (k, v').
      * intros [[-> ->]|[Hne [E|Hin]]]; [by left|simplify_eq|by right].
    + rewrite !elem_of_cons, (IH Hnd). split.
      * intros [E|[[-> ->]|[Hne' Hin]]]; simplify_eq; auto.
      * intros [[-> ->]|[Hne' [E|Hin]]]; simplify_eq; auto.
Qed.

Lemma literal_claves filtrosActivos :
  NoDup (literal filtrosActivos).*1 ∧
  ∀ k, k ∈ (literal filtrosActivos).*1 ↔
       k = "page" ∨ k = "size" ∨ k ∈ filtrosActivos.*1.
Proof.
  unfold literal.
  assert (H0 : NoDup [("page", JNum 1); ("size", JNum 50)].*1 ∧
               ∀ k, k ∈ [("page", JNum 1); ("size", JNum 50)].*1 ↔
                    k = "page" ∨ k = "size" ∨ k ∈ ([] : list string)).
  { split.
    - simpl. apply NoDup_cons. split; [|apply NoDup_singleton].
      rewrite list_elem_of_singleton. discriminate.
    - intros k. simpl. rewrite !elem_of_cons. rewrite !elem_of_nil. tauto. }
  revert H0. generalize [("page", JNum 1); ("size", JNum 50)].
  assert (Hgen : ∀ (fa previos : list (string * string)) (obj : list (string * JSValue)),
            NoDup obj.*1 ∧ (∀ k, k ∈ obj.*1 ↔ k = "page" ∨ k = "size" ∨ k ∈ previos.*1) →
            NoDup (foldl (λ o kv, asignar kv.1 (JStr kv.2) o) obj fa).*1 ∧
            ∀ k, k ∈ (foldl (λ o kv, asignar kv.1 (JStr kv.2) o) obj fa).*1 ↔
                 k = "page" ∨ k = "size" ∨ k ∈ (previos ++ fa).*1).
  { induction fa as [|[k1 v1] fa IH]; intros previos obj [Hnd Hk]; simpl.
    - rewrite app_nil_r. done.
    - destruct (asignar_claves k1 (JStr v1) obj Hnd) as [Hnd' Hk'].
      replace (previos ++ (k1, v1) :: fa) with ((previos ++ [(k1, v1)]) ++ fa)
        by (by rewrite <- app_assoc).
      apply IH. split; [done|]. intros k. rewrite Hk', Hk, fmap_app, elem_of_app.
      simpl. rewrite list_elem_of_singleton. tauto. }
  intros obj H0. apply (Hgen filtrosActivos [] obj H0).
Qed.

(** The entries of the literal: the last filter of a name wins, the
    defaults being the first two. *)
Lemma literal_entradas filtrosActivos k v :
  (k, v) ∈ literal filtrosActivos ↔
  match last (filter (λ kv, kv.1 = k) filtrosActivos) with
  | Some kv => v = JStr kv.2
  | None => (k = "page" ∧ v = JNum 1) ∨ (k = "size" ∧ v = JNum 50)
  end.
Proof.
  revert k v. induction filtrosActivos as [|[k1 v1] fa IH] using rev_ind; intros k v.
  - unfold literal. simpl. rewrite !elem_of_cons, elem_of_nil. split.
    + intros [E|[E|[]]]; simplify_eq; auto.
    + intros [[-> ->]|[-> ->]]; auto.
  - unfold literal in *. rewrite foldl_snoc. simpl.
    rewrite asignar_entradas by apply (proj1 (literal_claves fa)).
    rewrite filter_app, last_app, filter_cons, filter_nil. simpl.
    destruct (decide (k1 = k)) as [->|Hne]; simpl.
    + split; [|by left]. intros [[_ ->]|[Hne _]]; done.
    + rewrite IH. split; [intros [[-> _]|[_ H]]; done|]. intros H. right. split; [|done].
      by intros ->.
Qed.

Lemma omap_con_indice (obj : list (string * JSValue)) :
  snd <$> omap con_indice obj = filter (λ kv, ¬ indice kv.1 = None) obj.
Proof.
  induction obj as [|[k v] obj IH]; [done|].
  rewrite filter_cons. simpl. unfold con_indice at 1. simpl.
  destruct (indice k) as [n|]; simpl.
  - f_equal. exact IH.
  - exact IH.
Qed.

(** [Object.keys] reorders the entries and nothing else. *)
Lemma en_orden_de_claves_perm obj : en_orden_de_claves obj ≡ₚ obj.
Proof.
  unfold en_orden_de_claves. rewrite merge_sort_Permutation, omap_con_indice.
  rewrite (comm (++)). apply filter_app_complement.
Qed.

Lemma filtros_de_claves filtrosActivos :
  NoDup (filtros_de filtrosActivos).*1 ∧
  ∀ k, k ∈ (filtros_de filtrosActivos).*1 ↔
       k = "page" ∨ k = "size" ∨ k ∈ filtrosActivos.*1.
Proof.
  unfold filtros_de. destruct (literal_claves filtrosActivos) as [Hnd Hk]. split.
  - by rewrite en_orden_de_claves_perm.
  - intros k. rewrite en_orden_de_claves_perm. apply Hk.
Qed.

Lemma agregar_params_claves (S_ : JSValue → string) (obj : list (string * JSValue)) :
  Forall (λ kv, kv.2 ≠ JUndefined ∧ kv.2 ≠ JNull) obj →
  (Api.agregar_params S_ obj).*1 = obj.*1.
Proof.
  induction obj as [|[k v] obj IH]; intros Hall; [done|].
  inversion Hall as [|? ? [Hu Hn] Hrest]; subst. simpl in *.
  destruct v; simpl; try congruence; f_equal; by apply IH.
Qed.

Lemma asignar_definidos k s obj :
  Forall (λ kv : string * JSValue, kv.2 ≠ JUndefined ∧ kv.2 ≠ JNull) obj →
  Forall (λ kv : string * JSValue, kv.2 ≠ JUndefined ∧ kv.2 ≠ JNull)
         (asignar k (JStr s) obj).
Proof.
  induction obj as [|[k0 v0] obj IH]; intros Hall; simpl.
  - by repeat constructor.
  - inversion Hall; subst. case_decide; constructor; auto.
Qed.

Lemma literal_definidos filtrosActivos :
  Forall (λ kv : string * JSValue, kv.2 ≠ JUndefined ∧ kv.2 ≠ JNull)
         (literal filtrosActivos).
Proof.
  unfold literal.
  assert (H0 : Forall (λ kv : string * JSValue, kv.2 ≠ JUndefined ∧ kv.2 ≠ JNull)
                 [("page", JNum 1); ("size", JNum 50)]) by (by repeat constructor).
  revert H0. generalize [("page", JNum 1); ("size", JNum 50)].
  induction filtrosActivos as [|[k v] fa IH]; intros obj H0; simpl; [done|].
  apply IH. by apply asignar_definidos.
Qed.

Lemma filtros_de_definidos filtrosActivos :
  Forall (λ kv : string * JSValue, kv.2 ≠ JUndefined ∧ kv.2 ≠ JNull)
         (filtros_de filtrosActivos).
Proof.
  unfold filtros_de. rewrite en_orden_de_claves_perm. apply literal_definidos.
Qed.

Lemma antes_total {A} : Total (@antes A).
Proof. intros a b. unfold antes. lia. Qed.

Lemma antes_trans {A} : Transitive (@antes A).
Proof. intros a b c. unfold antes. lia. Qed.

Lemma omap_con_indice_elem (obj : list (string * JSValue)) n kv :
  (n, kv) ∈ omap con_indice obj → indice kv.1 = Some n.
Proof.
  rewrite list_elem_of_omap. intros (kv' & _ & H). unfold con_indice in H.
  destruct (indice kv'.1) eqn:E; simplify_eq. done.
Qed.

(** The array indices come first and ascend; the names follow. *)
Lemma en_orden_de_claves_forma obj :
  ∃ indices nombres,
    en_orden_de_claves obj = indices ++ nombres ∧
    StronglySorted (λ a b, ∃ n m, indice a.1 = Some n ∧ indice b.1 = Some m ∧ (n ≤ m)%N)
                   indices ∧
    Forall (λ kv, is_Some (indice kv.1)) indices ∧
    Forall (λ kv, indice kv.1 = None) nombres.
Proof.
  eexists _, _. split; [reflexivity|]. split; [|split].
  - pose proof (@StronglySorted_merge_sort _ (@antes (string * JSValue)) _
                  antes_trans antes_total (omap con_indice obj)) as Hs.
    assert (Forall (λ p, indice p.2.1 = Some p.1) (merge_sort antes (omap con_indice obj)))
      as Hall.
    { rewrite merge_sort_Permutation. apply Forall_forall. intros [n kv] Hin.
      by apply omap_con_indice_elem in Hin. }
    induction Hs as [|p l Hs IH Hp]; simpl; [constructor|].
    inversion Hall as [|? ? Hp0 Hl]; subst.
    constructor; [by apply IH|].
    rewrite Forall_fmap. rewrite Forall_forall in Hp, Hl |- *.
    intros q Hq. simpl. exists p.1, q.1. split; [done|]. split; [by apply Hl|].
    by apply Hp.
  - rewrite Forall_fmap, merge_sort_Permutation. apply Forall_forall.
    intros [n kv] Hin. simpl. apply omap_con_indice_elem in Hin. by rewrite Hin.
  - apply Forall_forall. intros kv Hin. by apply list_elem_of_filter in Hin as [? _].
Qed.

(** X12: the query the page sends for the movements names each parameter
    once: page and size always, and every active filter.  Each parameter
    carries the value of the last filter of that name, as text, and page
    and size carry 1 and 50 when no filter has their name: a filter called
    page or size replaces the default instead of being sent beside it.  No
    entry of the object is dropped, and the parameters follow the order of
    Object.keys: those whose name is an array index first, by ascending
    index, and after them the others. *)
Theorem parametros_de_la_pagina (filtrosActivos : list (string * string)) :
  NoDup (Api.agregar_params String_ (filtros_de filtrosActivos)).*1 ∧
  (∀ k, k ∈ (Api.agregar_params String_ (filtros_de filtrosActivos)).*1 ↔
        k = "page" ∨ k = "size" ∨ k ∈ filtrosActivos.*1) ∧
  (∀ k s, (k, s) ∈ Api.agregar_params String_ (filtros_de filtrosActivos) ↔
          match last (filter (λ kv, kv.1 = k) filtrosActivos) with
          | Some kv => s = String_ (JStr kv.2)
          | None => (k = "page" ∧ s = String_ (JNum 1)) ∨
                    (k = "size" ∧ s = String_ (JNum 50))
          end) ∧
  length (Api.agregar_params String_ (filtros_de filtrosActivos)) =
    length (filtros_de filtrosActivos) ∧
  (∃ indices nombres,
      (Api.agregar_params String_ (filtros_de filtrosActivos)).*1 = indices ++ nombres ∧
      StronglySorted (λ a b, ∃ n m, indice a = Some n ∧ indice b = Some m ∧ (n ≤ m)%N)
                     indices ∧
      Forall (λ k, is_Some (indice k)) indices ∧
      Forall (λ k, indice k = None) nombres).
Proof.
  pose proof (agregar_params_claves String_ _ (filtros_de_definidos filtrosActivos)) as E.
  destruct (filtros_de_claves filtrosActivos) as [Hnd Hk].
  rewrite E. split; [done|]. split; [done|]. split; [|split].
  - intros k s. rewrite (agregar_params_elem String_). unfold filtros_de. split.
    + intros (v & Hin & _ & _ & ->). rewrite en_orden_de_claves_perm in Hin.
      apply literal_entradas in Hin.
      destruct (last (filter (λ kv, kv.1 = k) filtrosActivos)) as [kv|].
      * by rewrite Hin.
      * destruct Hin as [[-> ->]|[-> ->]]; auto.
    + intros H.
      destruct (last (filter (λ kv, kv.1 = k) filtrosActivos)) as [kv|] eqn:El.
      * exists (JStr kv.2). rewrite en_orden_de_claves_perm.
        split; [|done]. apply literal_entradas. by rewrite El.
      * destruct H as [[-> ->]|[-> ->]].
        -- exists (JNum 1). rewrite en_orden_de_claves_perm.
           split; [|done]. apply literal_entradas. rewrite El. by left.
        -- exists (JNum 50). rewrite en_orden_de_claves_perm.
           split; [|done]. apply literal_entradas. rewrite El. by right.
  - rewrite <- (length_fmap fst (Api.agregar_params _ _)), E. by rewrite length_fmap.
  - unfold filtros_de.
    destruct (en_orden_de_claves_forma (literal filtrosActivos))
      as (indices & nombres & -> & Hs & Hi & Hn).
    exists indices.*1, nombres.*1. split; [by rewrite fmap_app|]. split; [|split].
    + clear Hi. induction Hs as [|kv l Hs IH Hkv]; simpl; constructor; [done|].
      by rewrite Forall_fmap.
    + by rewrite Forall_fmap.
    + by rewrite Forall_fmap.
Qed.

End PaginaProps.

Section PaginaEjemplo.
Import Pagina.

Lemma cargarDatos_todo_o_nada_witness :
  loading (cargarDatos (λ _, Ok JNull) (λ _, "") (λ _, "1") (λ _, "")
             "ABC123456789" [] estado_inicial) = false ∧
  movimientos (cargarDatos (λ _, Ok JNull) (λ _, "") (λ _, "1") (λ _, "")
                 "ABC123456789" [] estado_inicial) = JArr [].
Proof.
  destruct (proj2 (cargarDatos_todo_o_nada (λ _, Ok JNull) (λ _, "") (λ _, "1") (λ _, "")
                     "ABC123456789" [] estado_inicial) ltac:(discriminate))
    as [Hl _].
  split; [exact Hl|reflexivity].
Defined.

(** The parameters for two filters, one of them called page and one named
    by an array index. *)
Example parametros_con_indice :
  Api.agregar_params (λ v, match v with JStr s => s | JNum n => "n" | _ => "?" end)
    (filtros_de [("page", "2"); ("estado", "PENDIENTE"); ("7", "x")]) =
  [("7", "x"); ("page", "2"); ("size", "n"); ("estado", "PENDIENTE")].
Proof. reflexivity. Qed.

End PaginaEjemplo.

(** ** Uploading a statement *)

Set Warnings "-clear-no-such-hyp".

Section SubidaProps.
Import Subida.

Lemma exito_opcional_ok r : ∃ e, exito_opcional r = Ok e.
Proof. destruct r; simpl; eauto. Qed.

Lemma handleUpload_card_forma empresaId rfc onSuccess respuesta :
  handleUpload_card true empresaId rfc onSuccess respuesta =
  SetIsUploading true ::
  match destino empresaId rfc, respuesta with
  | Some req, Ok r =>
      req :: SetResult r ::
      (if exito_truthy r && onSuccess then [OnSuccess] else []) ++ [SetIsUploading false]
  | Some req, Throw _ => [req; SetResult resultado_error; SetIsUploading false]
  | None, _ => [SetResult resultado_error; SetIsUploading false]
  end.
Proof.
  unfold handleUpload_card, destino, exito_truthy. simpl.
  destruct empresaId as [n|], rfc as [s|]; try destruct (String.eqb s ""); try done;
    destruct respuesta as [r|e]; try done;
    destruct (exito_opcional_ok r) as [x ->]; done.
Qed.

Lemma handleUpload_pagina_forma rfc respuesta :
  rfc ≠ "" →
  handleUpload_pagina true rfc respuesta =
  SetIsUploading true :: PostRfc rfc ::
  match respuesta with
  | Ok r =>
      if es_definido r
      then SetResult r :: (if exito_truthy r then [OnSuccess] else [])
                       ++ [SetIsUploading false]
      else [SetResult r; SetResult resultado_error; SetIsUploading false]
  | Throw _ => [SetResult resultado_error; SetIsUploading false]
  end.
Proof.
  intros Hrfc. apply String.eqb_neq in Hrfc.
  unfold handleUpload_pagina, exito_truthy. rewrite Hrfc. simpl.
  destruct respuesta as [r|e]; [|done]. by destruct r.
Qed.

(** X13: UploadCard.handleUpload does nothing without a file; with one it
    makes at most one request, to the company-id endpoint whenever
    empresaId is a number (the RFC is then ignored), else to the RFC
    endpoint when the RFC is not empty; onSuccess is called exactly when
    the callback was given, a request was made, and it resolved with a
    truthy exito; the result shown is the response when the request
    resolved and the fixed error object in every other case; and
    isUploading ends false. *)
Theorem subida_card (file : bool) (empresaId : option Z) (rfc : option string)
    (onSuccess : bool) (respuesta : JsResult JSValue) :
  handleUpload_card false empresaId rfc onSuccess respuesta = [] ∧
  filter (λ e, es_request e = true)
         (handleUpload_card true empresaId rfc onSuccess respuesta) =
    match destino empresaId rfc with Some req => [req] | None => [] end ∧
  (∀ n, empresaId = Some n → destino empresaId rfc = Some (PostEmpresa n)) ∧
  (OnSuccess ∈ handleUpload_card file empresaId rfc onSuccess respuesta ↔
     file = true ∧ onSuccess = true ∧ is_Some (destino empresaId rfc) ∧
     ∃ r, respuesta = Ok r ∧ exito_truthy r = true) ∧
  ultimo_resultado (handleUpload_card true empresaId rfc onSuccess respuesta) =
    Some (match destino empresaId rfc, respuesta with
          | Some _, Ok r => r
          | _, _ => resultado_error
          end) ∧
  ultimo_isUploading (handleUpload_card true empresaId rfc onSuccess respuesta) = Some false.
Proof.
  split; [reflexivity|]. rewrite handleUpload_card_forma.
  split; [|split; [|split; [|split]]].
  - destruct (destino empresaId rfc) as [req|] eqn:Hd; [|by destruct respuesta].
    assert (es_request req = true) as Hreq.
    { unfold destino in Hd. destruct empresaId, rfc; try destruct (String.eqb _ _);
        by simplify_eq. }
    destruct respuesta as [r|e]; rewrite !filter_cons; simpl; rewrite Hreq; simpl.
    + by destruct (exito_truthy r && onSuccess).
    + done.
  - by intros n ->.
  - destruct file; [|split; [by intros ?%elem_of_nil|by intros [? _]]].
    rewrite handleUpload_card_forma.
    destruct (destino empresaId rfc) as [req|] eqn:Hd.
    + assert (OnSuccess ≠ req) as Hreq.
      { unfold destino in Hd. destruct empresaId, rfc; try destruct (String.eqb _ _);
          by simplify_eq. }
      destruct respuesta as [r|e].
      * destruct (exito_truthy r) eqn:Hr, onSuccess; simpl;
          rewrite ?elem_of_cons, ?elem_of_nil; split; try naive_solver;
          intros (_ & _ & _ & r' & [= <-] & Hr'); congruence.
      * rewrite ?elem_of_cons, ?elem_of_nil. split; naive_solver.
    + destruct respuesta; rewrite ?elem_of_cons, ?elem_of_nil; split;
        try naive_solver; intros (_ & _ & [? ?] & _); done.
  - unfold ultimo_resultado.
    destruct (destino empresaId rfc) as [req|] eqn:Hd; [|by destruct respuesta].
    assert (match req with SetResult _ => False | _ => True end) as Hreq.
    { unfold destino in Hd. destruct empresaId, rfc; try destruct (String.eqb _ _);
        by simplify_eq. }
    destruct respuesta as [r|e]; destruct req; try done; simpl;
      by destruct (exito_truthy r && onSuccess).
  - unfold ultimo_isUploading.
    destruct (destino empresaId rfc) as [req|] eqn:Hd; [|by destruct respuesta].
    assert (match req with SetIsUploading _ => False | _ => True end) as Hreq.
    { unfold destino in Hd. destruct empresaId, rfc; try destruct (String.eqb _ _);
        by simplify_eq. }
    destruct respuesta as [r|e]; destruct req; try done; simpl;
      by destruct (exito_truthy r && onSuccess).
Qed.

(** X14: SubirEstadoCuenta.handleUpload of the page does nothing without a
    file or without an RFC; otherwise it makes one request by RFC, calls
    onSuccess exactly when the request resolved with a body that is not
    null and has a truthy exito, and ends with isUploading false.  The
    result it leaves is the response when it is not null; a null body makes
    the read of result.exito throw, which the catch turns into the fixed
    error object, as for a failed request. *)
Theorem subida_pagina (file : bool) (rfc : string) (respuesta : JsResult JSValue) :
  (file = false ∨ rfc = "" → handleUpload_pagina file rfc respuesta = []) ∧
  (rfc ≠ "" →
     filter (λ e, es_request e = true) (handleUpload_pagina true rfc respuesta)
       = [PostRfc rfc] ∧
     (OnSuccess ∈ handleUpload_pagina true rfc respuesta ↔
        ∃ r, respuesta = Ok r ∧ es_definido r = true ∧ exito_truthy r = true) ∧
     ultimo_resultado (handleUpload_pagina true rfc respuesta) =
       Some (match respuesta with
             | Ok r => if es_definido r then r else resultado_error
             | Throw _ => resultado_error
             end) ∧
     ultimo_isUploading (handleUpload_pagina true rfc respuesta) = Some false).
Proof.
  split.
  - intros [->| ->]; unfold handleUpload_pagina; [done|].
    by rewrite orb_true_r.
  - intros Hrfc. rewrite handleUpload_pagina_forma by done.
    destruct respuesta as [r|e].
    + destruct (es_definido r) eqn:Hdef.
      * destruct (exito_truthy r) eqn:Hr; simpl.
        -- split; [done|]. split; [|done]. rewrite ?elem_of_cons, ?elem_of_nil.
           split; [|naive_solver]. intros _. by exists r.
        -- split; [done|]. split; [|done]. rewrite ?elem_of_cons, ?elem_of_nil.
           split; [naive_solver|]. intros (r' & [= <-] & _ & Hr'). congruence.
      * split; [done|]. split; [|done]. rewrite ?elem_of_cons, ?elem_of_nil.
        split; [naive_solver|]. intros (r' & [= <-] & Hd' & _). congruence.
    + split; [done|]. split; [|done]. rewrite ?elem_of_cons, ?elem_of_nil.
      split; [naive_solver|]. intros (r' & ? & _). done.
Qed.

Lemma subida_pagina_witness :
  handleUpload_pagina true "" (Ok JNull) = [] ∧
  ultimo_resultado (handleUpload_pagina true "ABC123456789" (Ok JNull))
    = Some resultado_error.
Proof.
  split.
  - apply (proj1 (subida_pagina true "" (Ok JNull))). by right.
  - apply (proj2 (subida_pagina true "ABC123456789" (Ok JNull))). discriminate.
Defined.

End SubidaProps.

(** ** The detail dialog, further *)

Section DetalleMasProps.
Import Detalle.

Variable toLocaleString_esMX : Q → string.
Variable toLocaleDateString_esMX : string → string.
Variable toLocaleDateTime_esMX : string → string.
Variable texto_de_numero : Z → string.
Variable texto_de_Q : Q → string.
Variable toFixed1 : Q → string.

Local Abbreviation render :=
  (MovimientoDetalle toLocaleString_esMX toLocaleDateString_esMX
     toLocaleDateTime_esMX texto_de_numero texto_de_Q toFixed1).

Lemma si_texto_no_vacio x s : si_texto x = Some s → s ≠ "".
Proof.
  unfold si_texto. destruct x as [t|]; [|done].
  destruct (String.eqb_spec t "") as [->|Hne]; [done|]. by intros [= <-].
Qed.

Lemma texto_truthy_spec x : texto_truthy x = true ↔ is_Some (si_texto x).
Proof.
  unfold texto_truthy. destruct (si_texto x); split; done || (by intros [? ?]).
Qed.

(** X15: the detail dialog never shows an empty block.  Every optional text
    it renders (referencia, observaciones, UUID, metodo) is a non-empty
    string; the conciliation panel is rendered exactly when the movement
    has a non-empty UUID, a non-zero confidence or a non-empty method, and
    then at least one of its three parts is there; the dialog is open
    exactly when isOpen says so. *)
Theorem dialogo_sin_bloques_vacios (m : MovimientoBancario) (isOpen : bool) (d : Dialogo) :
  render (Some m) isOpen = Ok (Some d) →
  d_show d = isOpen ∧
  (∀ s, d_referencia d = Some s → s ≠ "") ∧
  (∀ s, d_observaciones d = Some s → s ≠ "") ∧
  (d_conciliacion d = None ↔
     si_texto (cfdi_uuid m) = None ∧
     confianza_truthy (nivel_confianza m) = false ∧
     si_texto (metodo_conciliacion m) = None) ∧
  (∀ p, d_conciliacion d = Some p →
     (∀ s, p_uuid p = Some s → s ≠ "") ∧
     (∀ s, p_metodo p = Some s → s ≠ "") ∧
     (is_Some (p_uuid p) ∨ (∃ ancho pct, p_confianza p = Barra ancho pct) ∨
      is_Some (p_metodo p))).
Proof.
  unfold MovimientoDetalle. destruct (parrafo_saldo _ _) as [ps|e]; simpl; [|done].
  intros [= <-]. simpl.
  split; [done|]. split; [apply si_texto_no_vacio|]. split; [apply si_texto_no_vacio|].
  unfold panel_conciliacion.
  destruct (texto_truthy (cfdi_uuid m)) eqn:Hu; simpl.
  { apply texto_truthy_spec in Hu as [u Hu]. split.
    - split; [done|]. intros [E _]. congruence.
    - intros p [= <-]. simpl. split; [apply si_texto_no_vacio|].
      split; [apply si_texto_no_vacio|]. left. by eexists. }
  assert (si_texto (cfdi_uuid m) = None) as Hu'.
  { destruct (si_texto (cfdi_uuid m)) eqn:E; [|done].
    unfold texto_truthy in Hu. by rewrite E in Hu. }
  destruct (confianza_truthy (nivel_confianza m)) eqn:Hc; simpl.
  { split.
    - split; [done|]. intros (_ & E & _). congruence.
    - intros p [= <-]. simpl. split; [apply si_texto_no_vacio|].
      split; [apply si_texto_no_vacio|]. right. left.
      unfold confianza_truthy, celda_confianza in *.
      destruct (nivel_confianza m) as [q|]; [|done].
      destruct (Qeq_bool q 0); [done|]. by eexists _, _. }
  destruct (texto_truthy (metodo_conciliacion m)) eqn:Hm; simpl.
  { apply texto_truthy_spec in Hm as [u Hm]. split.
    - split; [done|]. intros (_ & _ & E). congruence.
    - intros p [= <-]. simpl. split; [apply si_texto_no_vacio|].
      split; [apply si_texto_no_vacio|]. right. right. by eexists. }
  assert (si_texto (metodo_conciliacion m) = None) as Hm'.
  { destruct (si_texto (metodo_conciliacion m)) eqn:E; [|done].
    unfold texto_truthy in Hm. by rewrite E in Hm. }
  split; [done|]. intros p E. discriminate.
Qed.

End DetalleMasProps.

Section DetalleEjemplo.
Import Detalle.

Lemma dialogo_sin_bloques_vacios_witness :
  ∃ d, MovimientoDetalle (λ _, "1,500.00") (λ f, f) (λ f, f) (λ _, "1") (λ _, "95")
         (λ _, "95.0") (Some (Ejemplo.movimiento 1 CONCILIADO (Some "UUID-A") (Some "")))
         true = Ok (Some d) ∧
       d_show d = true ∧
       (∀ p, d_conciliacion d = Some p →
          (∀ s, p_uuid p = Some s → s ≠ "") ∧
          (∀ s, p_metodo p = Some s → s ≠ "") ∧
          (is_Some (p_uuid p) ∨ (∃ ancho pct, p_confianza p = Barra ancho pct) ∨
           is_Some (p_metodo p))).
Proof.
  eexists. split; [reflexivity|].
  pose proof (dialogo_sin_bloques_vacios (λ _, "1,500.00") (λ f, f) (λ f, f) (λ _, "1")
                (λ _, "95") (λ _, "95.0")
                (Ejemplo.movimiento 1 CONCILIADO (Some "UUID-A") (Some "")) true _ eq_refl)
    as (H1 & _ & _ & _ & H5).
  split; [exact H1|exact H5].
Defined.

End DetalleEjemplo.
